(** * A JIRA time tracker in the menu bar: model of [main.go]

    The program keeps a menu of issues ([JiraMenu]), one of which may be
    selected, and a stopwatch ([Timer]) whose elapsed time is sent to
    JIRA as a work log when it is stopped.  The model follows [main.go]
    function by function.  The collaborators of the program (the [jira]
    command line tool, the dialogs of [mack], the clock) answer through
    explicit arguments, and what the program does to them (commands run,
    alerts shown, lines logged) is recorded in the state.

    [Tracker] has the functions of the program, each click served in
    one piece.  [Goroutines] has the loops [onReady] starts, step by
    step and in any order, with the lock of the menu; the runs of
    [Tracker] are among its schedules. *)

From Stdlib Require Import ZArith Lia.
From stdpp Require Import base decidable option numbers strings pretty list gmap.

(** ** [time.Duration]

    A [Duration] is an [int64] count of nanoseconds.  [Round], [Since]
    and the conversion to minutes are those of Go's [time] package,
    with the wrap-around of [int64] written out. *)
Module Duration.
Local Open Scope Z_scope.

Definition Nanosecond : Z := 1.
Definition Second : Z := 1000000000 * Nanosecond.
Definition Minute : Z := 60 * Second.

Definition minDuration : Z := - 2 ^ 63.
Definition maxDuration : Z := 2 ^ 63 - 1.

(** Conversions [int64(x)] and [uint64(x)] of Go. *)
Definition int64 (x : Z) : Z := (x + 2 ^ 63) mod 2 ^ 64 - 2 ^ 63.
Definition uint64 (x : Z) : Z := x mod 2 ^ 64.

(** [lessThanHalf x y]: [uint64(x)+uint64(x) < uint64(y)]. *)
Definition lessThanHalf (x y : Z) : bool :=
  uint64 (uint64 x + uint64 x) <? uint64 y.

(** [d.Round(m)]: the nearest multiple of [m], halves away from zero,
    saturating at the ends of [int64].  [%] of Go is [Z.rem]. *)
Definition Round (d m : Z) : Z :=
  if m <=? 0 then d
  else
    let r := Z.rem d m in
    if d <? 0 then
      let r := - r in
      if lessThanHalf r m then int64 (d + r)
      else
        let d1 := int64 (d - m + r) in
        if d1 <? d then d1 else minDuration
    else
      if lessThanHalf r m then int64 (d - r)
      else
        let d1 := int64 (d + m - r) in
        if d1 >? d then d1 else maxDuration.

(** [int(d.Minutes())].  [Minutes] is [float64(d/Minute) +
    float64(d%Minute)/(60*1e9)]; the program applies it to the result of
    [Round _ Minute] only, which is a whole number of minutes below
    [2^53] (the sum is then exact) or one of the two saturated values
    (whose fraction is about 0.28): the conversion to [int] gives the
    truncated quotient [d / Minute] in each case (see
    [Round_Minute_shape]). *)
Definition MinutesInt (d : Z) : Z := Z.quot d Minute.

(** [time.Since(start)] when the clock reads [now]: the difference of
    the two (monotonic) readings, saturated to the range of [Duration]
    as [Time.Sub] does. *)
Definition Since (start now : Z) : Z :=
  let d := now - start in
  if d <? minDuration then minDuration
  else if maxDuration <? d then maxDuration
  else d.

Lemma int64_id x : minDuration <= x <= maxDuration -> int64 x = x.
Proof.
  unfold int64, minDuration, maxDuration. intros H.
  rewrite Z.mod_small; lia.
Qed.

Lemma Since_range start now :
  minDuration <= Since start now <= maxDuration.
Proof.
  unfold Since.
  destruct (Z.ltb_spec (now - start) minDuration); [unfold minDuration, maxDuration; lia|].
  destruct (Z.ltb_spec maxDuration (now - start)); [unfold minDuration, maxDuration; lia|].
  lia.
Qed.

Lemma Since_nonneg start now : start <= now -> 0 <= Since start now.
Proof.
  intros H. unfold Since.
  destruct (Z.ltb_spec (now - start) minDuration); [unfold minDuration in *; lia|].
  destruct (Z.ltb_spec maxDuration (now - start)); [unfold maxDuration; lia|].
  lia.
Qed.

(** For a non-negative duration that is not near the end of [int64],
    rounding to the minute is rounding to the nearest minute, the half
    minute going up. *)
Lemma Round_Minute_nonneg d :
  0 <= d < maxDuration - Minute ->
  Round d Minute = ((d + 30 * Second) / Minute) * Minute.
Proof.
  intros [H0 H1]. unfold Round.
  change (Minute <=? 0) with false. cbv iota.
  destruct (Z.ltb_spec d 0) as [?|_]; [lia|].
  rewrite Z.rem_mod_nonneg by (unfold Minute, Second, Nanosecond; lia).
  pose proof (Z.mod_pos_bound d Minute ltac:(reflexivity)) as Hr.
  pose proof (Z.div_mod d Minute ltac:(discriminate)) as Hdm.
  unfold lessThanHalf, uint64.
  assert (HM : Minute = 60000000000) by reflexivity.
  assert (HS : Second = 1000000000) by reflexivity.
  assert (Hmax : maxDuration = 9223372036854775807) by reflexivity.
  rewrite (Z.mod_small (d mod Minute)) by lia.
  rewrite (Z.mod_small (d mod Minute + d mod Minute)) by lia.
  rewrite (Z.mod_small Minute) by lia.
  set (q := d / Minute) in *. set (r := d mod Minute) in *.
  destruct (Z.ltb_spec (r + r) Minute) as [Hlt|Hge].
  - rewrite int64_id by (unfold minDuration; lia).
    assert (Hq : (d + 30 * Second) / Minute = q).
    { symmetry. apply (Z.div_unique _ _ q (r + 30 * Second)); lia. }
    rewrite Hq. lia.
  - rewrite int64_id by (unfold minDuration; lia).
    destruct (Z.gtb_spec (d + Minute - r) d) as [_|?]; [|lia].
    assert (Hq : (d + 30 * Second) / Minute = q + 1).
    { symmetry. apply (Z.div_unique _ _ (q + 1) (r - 30 * Second)); lia. }
    rewrite Hq. lia.
Qed.

Lemma int64_wrap_hi x :
  maxDuration < x <= maxDuration + 2 ^ 63 -> int64 x = x - 2 ^ 64.
Proof.
  unfold int64, maxDuration. intros H.
  replace (x + 2 ^ 63) with ((x - 2 ^ 63) + 1 * 2 ^ 64) by lia.
  rewrite Z.mod_add by lia. rewrite Z.mod_small; lia.
Qed.

Lemma int64_wrap_lo x :
  minDuration - 2 ^ 63 <= x < minDuration -> int64 x = x + 2 ^ 64.
Proof.
  unfold int64, minDuration. intros H.
  replace (x + 2 ^ 63) with ((x + 2 ^ 63 + 2 ^ 64) + (-1) * 2 ^ 64) by lia.
  rewrite Z.mod_add by lia. rewrite Z.mod_small; lia.
Qed.

(** The shape of [Round d Minute] on a non-negative [d], by the
    quotient and remainder of [d]. *)
Lemma Round_Minute_pos_cases d :
  0 <= d <= maxDuration ->
  let q := d / Minute in
  let r := d mod Minute in
  (r + r < Minute /\ Round d Minute = q * Minute) \/
  (Minute <= r + r /\ (q + 1) * Minute <= maxDuration /\
   Round d Minute = (q + 1) * Minute) \/
  (Minute <= r + r /\ maxDuration < (q + 1) * Minute /\
   Round d Minute = maxDuration).
Proof.
  intros [H0 H1] q r. unfold Round.
  change (Minute <=? 0) with false. cbv iota.
  destruct (Z.ltb_spec d 0) as [?|_]; [lia|].
  rewrite Z.rem_mod_nonneg by (unfold Minute, Second, Nanosecond; lia).
  pose proof (Z.mod_pos_bound d Minute ltac:(reflexivity)) as Hr.
  pose proof (Z.div_mod d Minute ltac:(discriminate)) as Hdm.
  fold q in Hdm. fold r in Hr, Hdm |- *.
  unfold lessThanHalf, uint64.
  assert (HM : Minute = 60000000000) by reflexivity.
  assert (Hmax : maxDuration = 9223372036854775807) by reflexivity.
  assert (Hmin : minDuration = -9223372036854775808) by reflexivity.
  rewrite (Z.mod_small r) by lia.
  rewrite (Z.mod_small (r + r)) by lia.
  rewrite (Z.mod_small Minute) by lia.
  destruct (Z.ltb_spec (r + r) Minute) as [Hlt|Hge].
  - left. split; [lia|]. rewrite int64_id by lia. lia.
  - right. destruct (Z_le_gt_dec ((q + 1) * Minute) maxDuration) as [Hle|Hgt].
    + left. split; [lia|]. split; [lia|].
      rewrite int64_id by lia.
      destruct (Z.gtb_spec (d + Minute - r) d); lia.
    + right. split; [lia|]. split; [lia|].
      rewrite int64_wrap_hi by lia.
      destruct (Z.gtb_spec (d + Minute - r - 2 ^ 64) d); lia.
Qed.

(** The same on a negative [d], by the quotient and remainder of [-d]. *)
Lemma Round_Minute_neg_cases d :
  minDuration <= d < 0 ->
  let q := (- d) / Minute in
  let r := (- d) mod Minute in
  (r + r < Minute /\ Round d Minute = - (q * Minute)) \/
  (Minute <= r + r /\ minDuration <= - ((q + 1) * Minute) /\
   Round d Minute = - ((q + 1) * Minute)) \/
  (Minute <= r + r /\ - ((q + 1) * Minute) < minDuration /\
   Round d Minute = minDuration).
Proof.
  intros [H0 H1] q r. unfold Round.
  change (Minute <=? 0) with false. cbv iota.
  destruct (Z.ltb_spec d 0) as [_|?]; [|lia].
  assert (Hrem : Z.rem d Minute = - r).
  { replace d with (- - d) at 1 by lia. rewrite Z.rem_opp_l by discriminate.
    rewrite Z.rem_mod_nonneg by (unfold Minute, Second, Nanosecond; lia).
    reflexivity. }
  rewrite Hrem, Z.opp_involutive.
  pose proof (Z.mod_pos_bound (- d) Minute ltac:(reflexivity)) as Hr.
  pose proof (Z.div_mod (- d) Minute ltac:(discriminate)) as Hdm.
  fold q in Hdm. fold r in Hr, Hdm |- *.
  unfold lessThanHalf, uint64.
  assert (HM : Minute = 60000000000) by reflexivity.
  assert (Hmax : maxDuration = 9223372036854775807) by reflexivity.
  assert (Hmin : minDuration = -9223372036854775808) by reflexivity.
  rewrite (Z.mod_small r) by lia.
  rewrite (Z.mod_small (r + r)) by lia.
  rewrite (Z.mod_small Minute) by lia.
  destruct (Z.ltb_spec (r + r) Minute) as [Hlt|Hge].
  - left. split; [lia|]. rewrite int64_id by lia. lia.
  - right. destruct (Z_le_gt_dec minDuration (- ((q + 1) * Minute))) as [Hle|Hgt].
    + left. split; [lia|]. split; [lia|].
      rewrite int64_id by lia.
      destruct (Z.ltb_spec (d - Minute + r) d); lia.
    + right. split; [lia|]. split; [lia|].
      rewrite int64_wrap_lo by lia.
      destruct (Z.ltb_spec (d - Minute + r + 2 ^ 64) d); lia.
Qed.

(** [Round d Minute] is a whole number of minutes or saturated. *)
Lemma Round_Minute_shape d :
  minDuration <= d <= maxDuration ->
  Z.rem (Round d Minute) Minute = 0 \/
  Round d Minute = maxDuration \/ Round d Minute = minDuration.
Proof.
  intros H. destruct (Z_lt_ge_dec d 0) as [Hneg|Hpos].
  - destruct (Round_Minute_neg_cases d ltac:(lia)) as [[_ ->]|[(_ & _ & ->)|(_ & _ & ->)]];
      [left|left|auto].
    + rewrite <- Z.mul_opp_l. apply Z.rem_mul. discriminate.
    + rewrite <- Z.mul_opp_l. apply Z.rem_mul. discriminate.
  - destruct (Round_Minute_pos_cases d ltac:(lia)) as [[_ ->]|[(_ & _ & ->)|(_ & _ & ->)]];
      [left|left|auto].
    + apply Z.rem_mul. discriminate.
    + apply Z.rem_mul. discriminate.
Qed.

(** The duration sent to JIRA is zero minutes exactly when the elapsed
    time is within half a minute of zero. *)
Lemma MinutesInt_Round_zero d :
  minDuration <= d <= maxDuration ->
  MinutesInt (Round d Minute) = 0 <-> - (30 * Second) < d < 30 * Second.
Proof.
  intros H. unfold MinutesInt.
  assert (HM : Minute = 60000000000) by reflexivity.
  assert (HS : Second = 1000000000) by reflexivity.
  assert (Hmax : maxDuration = 9223372036854775807) by reflexivity.
  assert (Hmin : minDuration = -9223372036854775808) by reflexivity.
  destruct (Z_lt_ge_dec d 0) as [Hneg|Hpos].
  - pose proof (Z.mod_pos_bound (- d) Minute ltac:(reflexivity)) as Hr.
    pose proof (Z.div_mod (- d) Minute ltac:(discriminate)) as Hdm.
    assert (Hq : 0 <= - d / Minute) by (apply Z.div_pos; lia).
    destruct (Round_Minute_neg_cases d ltac:(lia))
      as [[Hlt ->]|[(Hge & _ & ->)|(Hge & _ & ->)]].
    + rewrite <- Z.mul_opp_l, Z.quot_mul by discriminate. split; intros; nia.
    + rewrite <- Z.mul_opp_l, Z.quot_mul by discriminate. split; intros; nia.
    + rewrite Hmin, HM. change (-9223372036854775808 ÷ 60000000000) with (-153722867).
      split; intros; [lia|nia].
  - pose proof (Z.mod_pos_bound d Minute ltac:(reflexivity)) as Hr.
    pose proof (Z.div_mod d Minute ltac:(discriminate)) as Hdm.
    assert (Hq : 0 <= d / Minute) by (apply Z.div_pos; lia).
    destruct (Round_Minute_pos_cases d ltac:(lia))
      as [[Hlt ->]|[(Hge & _ & ->)|(Hge & _ & ->)]].
    + rewrite Z.quot_mul by discriminate. split; intros; nia.
    + rewrite Z.quot_mul by discriminate. split; intros; nia.
    + rewrite Hmax, HM. change (9223372036854775807 ÷ 60000000000) with 153722867.
      split; intros; [lia|nia].
Qed.

End Duration.

(** ** The program *)
Module Tracker.
Import Duration.

(** *** Library functions used by the program *)

(** [strconv.Itoa]: the decimal digits, with a minus sign when negative. *)
Definition Itoa (n : Z) : string := pretty n.

(** [errors.Wrap(err, msg).Error()] *)
Definition Wrap (err msg : string) : string := msg +:+ ": " +:+ err.

(** The bytes of a Go string. *)
Definition bytes (s : string) : list N :=
  Ascii.N_of_ascii <$> String.list_ascii_of_string s.

(** The six ASCII bytes [strings.TrimSpace] trims on its fast path. *)
Definition asciiSpace (b : N) : bool :=
  ((9 <=? b) && (b <=? 13) || (b =? 32))%N.

(** [allSpace bs]: the bytes are UTF-8 encodings of white space (as
    [unicode.IsSpace] has it) from end to end.  A byte that starts no
    such encoding decodes to a rune that is not white space. *)
Fixpoint allSpace (bs : list N) : bool :=
  match bs with
  | [] => true
  | b :: rest =>
    if asciiSpace b then allSpace rest
    else
      match b, rest with
      | 194%N, c :: rest' =>                      (* U+0085, U+00A0 *)
        ((c =? 133) || (c =? 160))%N && allSpace rest'
      | 225%N, 154%N :: 128%N :: rest' =>         (* U+1680 *)
        allSpace rest'
      | 226%N, 128%N :: c :: rest' =>             (* U+2000-200A, 2028, 2029, 202F *)
        ((128 <=? c) && (c <=? 138) || (c =? 168) || (c =? 169) || (c =? 175))%N
        && allSpace rest'
      | 226%N, 129%N :: 159%N :: rest' =>         (* U+205F *)
        allSpace rest'
      | 227%N, 128%N :: 128%N :: rest' =>         (* U+3000 *)
        allSpace rest'
      | _, _ => false
      end
  end.

(** [strings.TrimSpace(s) != ""] *)
Definition notBlank (s : string) : bool := negb (allSpace (bytes s)).

(** *** Data *)

(** [Issue], with [Fields.Summary] flattened. *)
Record Issue := { Key : string; Summary : string }.

(** A [systray.MenuItem] as far as the program uses it. *)
Record MenuItem := { title : string; tooltip : string; checked : bool }.

Definition AddMenuItem (title tooltip : string) : MenuItem :=
  {| title := title; tooltip := tooltip; checked := false |}.
Definition Check (item : MenuItem) : MenuItem :=
  {| title := title item; tooltip := tooltip item; checked := true |}.
Definition Uncheck (item : MenuItem) : MenuItem :=
  {| title := title item; tooltip := tooltip item; checked := false |}.

(** [JiraMenu].  The lock and [issueClickedCh] order the goroutines and
    have their model in [Goroutines] below; a click on the item of
    [key] reaches [check key] through the channel. *)
Record JiraMenu := {
  issueItems : gmap string MenuItem;
  selectedKey : string }.

(** [Timer]: the start time, a reading of the clock in nanoseconds.  The
    ticker and its goroutine only show the elapsed time in the tray. *)
Record Timer := { startTime : Z }.

(** The commands run through [exec.Command("jira", ...)]; the user name
    and the [--template debug] and [--noedit] flags are left out, and [S]
    is the start time before [Format(jiraTimeFormat)]. *)
Inductive Cmd :=
| JiraLogin
| JiraList
| JiraView (key : string)
| JiraWorklogAdd (m : option string) (S : Z) (T : string) (key : string).

(** What a command gave back: its output and its error. *)
Record Output := { cmd_out : string; cmd_err : option string }.

(** What [mack.Dialog] gave back: the button, the text, the error. *)
Record Response := { Clicked : string; Text : string; dlg_err : option string }.

(** The state of the program: the menu, the locals of [handleTimer]
    ([timerStarted], [timer], and the title of the timer item), and the
    record of what it did to the outside: commands run, alerts shown by
    [mack.Alert], lines written by [log]. *)
Record State := {
  menu : JiraMenu;
  timerStarted : bool;
  timer : Timer;
  timerTitle : string;
  execs : list Cmd;
  alerts : list string;
  logs : list string }.

Definition with_menu (f : JiraMenu -> JiraMenu) (s : State) : State :=
  {| menu := f (menu s); timerStarted := timerStarted s; timer := timer s;
     timerTitle := timerTitle s; execs := execs s; alerts := alerts s;
     logs := logs s |}.
Definition exec (c : Cmd) (s : State) : State :=
  {| menu := menu s; timerStarted := timerStarted s; timer := timer s;
     timerTitle := timerTitle s; execs := execs s ++ [c]; alerts := alerts s;
     logs := logs s |}.
Definition Alert (msg : string) (s : State) : State :=
  {| menu := menu s; timerStarted := timerStarted s; timer := timer s;
     timerTitle := timerTitle s; execs := execs s; alerts := alerts s ++ [msg];
     logs := logs s |}.
Definition log_Print (msg : string) (s : State) : State :=
  {| menu := menu s; timerStarted := timerStarted s; timer := timer s;
     timerTitle := timerTitle s; execs := execs s; alerts := alerts s;
     logs := logs s ++ [msg] |}.
Definition with_timer (started : bool) (t : Timer) (ttl : string) (s : State) : State :=
  {| menu := menu s; timerStarted := started; timer := t;
     timerTitle := ttl; execs := execs s; alerts := alerts s;
     logs := logs s |}.

(** The answers of the outside to one [getIssues]: of [jira login], of
    [jira list], and what [json.Unmarshal] makes of the output of the
    latter, the issues it filled in and its error. *)
Record FetchEnv := {
  fe_login : Output;
  fe_list : Output;
  fe_decoded : list Issue * option string }.

(** The answers to one [addIssue]: the dialog, [jira login], [jira view]
    and the decoding of its output. *)
Record AddEnv := {
  ae_dialog : Response;
  ae_login : Output;
  ae_view : Output;
  ae_decoded : Issue * option string }.

(** The answers to one [addWorkLog]: the dialog, [jira login] and
    [jira worklog add]. *)
Record LogEnv := {
  le_dialog : Response;
  le_login : Output;
  le_worklog : Output }.

(** *** The menu *)

Definition isItemPresent (m : JiraMenu) (key : string) : bool :=
  match issueItems m !! key with
  | Some _ => true
  | None => false
  end.

Definition addItem (issue : Issue) (m : JiraMenu) : JiraMenu :=
  if isItemPresent m (Key issue) then m
  else
    let item := AddMenuItem (Key issue +:+ " - " +:+ Summary issue) (Summary issue) in
    {| issueItems := <[Key issue := item]> (issueItems m);
       selectedKey := selectedKey m |}.

Definition getIssues (e : FetchEnv) (s : State) : (list Issue * option string) * State :=
  let s := exec JiraLogin s in
  match cmd_err (fe_login e) with
  | Some err => (([], Some (Wrap err "could not login")), s)
  | None =>
    let s := exec JiraList s in
    match cmd_err (fe_list e) with
    | Some err => (([], Some (Wrap err "could not list assigned issues")), s)
    | None => (fe_decoded e, s)
    end
  end.

Definition refresh (e : FetchEnv) (s : State) : State :=
  let '((issues, err), s) := getIssues e s in
  let s := match err with
           | Some msg => log_Print msg s
           | None => s
           end in
  with_menu (fun m => foldl (fun m issue => addItem issue m) m issues) s.

Definition check (key : string) (m : JiraMenu) : JiraMenu :=
  let items := Uncheck <$> issueItems m in
  match items !! key with
  | Some item =>
    {| issueItems := <[key := Check item]> items; selectedKey := key |}
  | None =>
    {| issueItems := items; selectedKey := "" |}
  end.

Definition NewJiraMenu (e : FetchEnv) (s : State) : State :=
  refresh e (with_menu (fun _ => {| issueItems := ∅; selectedKey := "" |}) s).

(** *** The timer *)

(** [timer.stop()]: the elapsed time.  The timer keeps its start time. *)
Definition stop (now : Z) (t : Timer) : Z := Since (startTime t) now.

Definition addWorkLog (key : string) (started d : Z) (e : LogEnv) (s : State)
  : option string * State :=
  let resp := le_dialog e in
  match dlg_err resp with
  | Some err => (Some (Wrap err "could not ask for log messge"), s)
  | None =>
    if decide (Clicked resp ≠ "OK") then (None, s)
    else
      let s := log_Print ("Adding worklog for  " +:+ key +:+ " , message:  " +:+ Text resp) s in
      let s := exec JiraLogin s in
      match cmd_err (le_login e) with
      | Some err => (Some (Wrap err "could not login!"), s)
      | None =>
        let durationTime := Itoa (MinutesInt (Round d Minute)) +:+ "m" in
        if decide (durationTime = "0m")
        then (Some "Cannot record a time log of < 1 minute", s)
        else
          let m := if notBlank (Text resp) then Some (Text resp) else None in
          let s := exec (JiraWorklogAdd m started durationTime key) s in
          match cmd_err (le_worklog e) with
          | Some err =>
            (Some (Wrap err ("could not add worklog: " +:+ cmd_out (le_worklog e))), s)
          | None => (None, s)
          end
      end
  end.

(** One turn of the loop of [handleTimer]: a click on the timer item
    when the clock reads [now]. *)
Definition handleTimer (now : Z) (e : LogEnv) (s : State) : State :=
  if timerStarted s then
    let d := stop now (timer s) in
    let '(err, s) := addWorkLog (selectedKey (menu s)) (startTime (timer s)) d e s in
    let s := match err with
             | Some msg => Alert msg s
             | None => s
             end in
    with_timer false (timer s) "Start Timer" s
  else
    if decide (selectedKey (menu s) = "") then Alert "No Issue Selected" s
    else with_timer true {| startTime := now |} "Stop Timer" s.

(** *** Adding an issue by its key *)

Definition addIssue (e : AddEnv) (s : State) : State :=
  let resp := ae_dialog e in
  match dlg_err resp with
  | Some _ => s
  | None =>
    if decide (Clicked resp ≠ "OK") then s
    else if isItemPresent (menu s) (Text resp) then Alert "Issue already there!" s
    else
      let s := exec JiraLogin s in
      match cmd_err (ae_login e) with
      | Some _ => s
      | None =>
        let s := exec (JiraView (Text resp)) s in
        match cmd_err (ae_view e) with
        | Some _ => Alert "Could not find that issue!" s
        | None =>
          match ae_decoded e with
          | (_, Some _) => Alert "Failed to read issue info.  Are you sure it exists?" s
          | (issue, None) => with_menu (addItem issue) s
          end
        end
      end
  end.

(** *** The events *)

(** The state [onReady] builds the menu in: the timer item reads "Start
    Timer", no timer runs, nothing was done to the outside yet. *)
Definition initial : State :=
  {| menu := {| issueItems := ∅; selectedKey := "" |};
     timerStarted := false; timer := {| startTime := 0 |};
     timerTitle := "Start Timer"; execs := []; alerts := []; logs := [] |}.

(** [onReady]: the menu is built, with its first [refresh], and only
    then are the loops started that serve the events below. *)
Definition onReady (e : FetchEnv) : State := NewJiraMenu e initial.

(** A click, with the answers of the outside while it is served. *)
Inductive Event :=
| IssueClicked (key : string)
| AddClicked (e : AddEnv)
| RefreshClicked (e : FetchEnv)
| TimerClicked (now : Z) (e : LogEnv).

Definition step (s : State) (ev : Event) : State :=
  match ev with
  | IssueClicked key => with_menu (check key) s
  | AddClicked e => addIssue e s
  | RefreshClicked e => refresh e s
  | TimerClicked now e => handleTimer now e s
  end.

(** The events served one after the other. *)
Definition run (s : State) (evs : list Event) : State := foldl step s evs.

(** ** The registry of issues: [addItem] *)

(** The menu item [addItem] makes for an issue. *)
Definition newItem (issue : Issue) : MenuItem :=
  AddMenuItem (Key issue +:+ " - " +:+ Summary issue) (Summary issue).

(** The calls [addItem] of a sequence of issues, in order. *)
Definition addItems (m : JiraMenu) (issues : list Issue) : JiraMenu :=
  foldl (fun m issue => addItem issue m) m issues.

Definition emptyMenu : JiraMenu := {| issueItems := ∅; selectedKey := "" |}.

Lemma isItemPresent_true m key :
  isItemPresent m key = true <-> is_Some (issueItems m !! key).
Proof.
  unfold isItemPresent. destruct (issueItems m !! key); split; intros H.
  - eauto.
  - reflexivity.
  - discriminate.
  - destruct H as [? ?]. discriminate.
Qed.

Lemma isItemPresent_false m key :
  isItemPresent m key = false <-> issueItems m !! key = None.
Proof.
  unfold isItemPresent. destruct (issueItems m !! key); split; congruence.
Qed.

Lemma addItem_present issue m :
  isItemPresent m (Key issue) = true -> addItem issue m = m.
Proof. intros H. unfold addItem. rewrite H. reflexivity. Qed.

Lemma addItem_selectedKey issue m :
  selectedKey (addItem issue m) = selectedKey m.
Proof. unfold addItem. destruct (isItemPresent m (Key issue)); reflexivity. Qed.

Lemma addItem_lookup issue m k :
  issueItems (addItem issue m) !! k =
  match issueItems m !! k with
  | Some item => Some item
  | None => if decide (Key issue = k) then Some (newItem issue) else None
  end.
Proof.
  unfold addItem. destruct (isItemPresent m (Key issue)) eqn:Hp.
  - apply isItemPresent_true in Hp as [item Hitem].
    destruct (issueItems m !! k) eqn:Hk; [reflexivity|].
    destruct (decide (Key issue = k)) as [<-|]; congruence.
  - apply isItemPresent_false in Hp. cbn.
    destruct (decide (Key issue = k)) as [<-|Hne].
    + rewrite lookup_insert_eq, Hp. reflexivity.
    + rewrite lookup_insert_ne by done. destruct (issueItems m !! k); reflexivity.
Qed.

Lemma addItem_dom issue m :
  dom (issueItems (addItem issue m)) = {[ Key issue ]} ∪ dom (issueItems m).
Proof.
  unfold addItem. destruct (isItemPresent m (Key issue)) eqn:Hp.
  - apply isItemPresent_true, elem_of_dom in Hp. set_solver.
  - cbn. apply dom_insert_L.
Qed.

Lemma addItems_selectedKey issues : forall m,
  selectedKey (addItems m issues) = selectedKey m.
Proof.
  induction issues as [|issue issues IH]; intros m; [reflexivity|].
  cbn. unfold addItems in IH. rewrite IH. apply addItem_selectedKey.
Qed.

Lemma addItems_dom issues : forall m,
  dom (issueItems (addItems m issues)) =
  list_to_set (Key <$> issues) ∪ dom (issueItems m).
Proof.
  induction issues as [|issue issues IH]; intros m; cbn.
  - set_solver.
  - unfold addItems in IH. rewrite IH, addItem_dom. set_solver.
Qed.

(** An entry of the registry is the item made for the first issue that
    came with its key: later ones with the same key change nothing. *)
Lemma addItems_lookup issues : forall m k,
  issueItems (addItems m issues) !! k =
  match issueItems m !! k with
  | Some item => Some item
  | None => newItem <$> head (filter (fun issue => Key issue = k) issues)
  end.
Proof.
  induction issues as [|issue issues IH]; intros m k; cbn.
  - destruct (issueItems m !! k); reflexivity.
  - unfold addItems in IH. rewrite IH, addItem_lookup.
    destruct (issueItems m !! k) as [item|]; [reflexivity|].
    destruct (decide (Key issue = k)); reflexivity.
Qed.

(** For calls made one after the other, each returning before the next
    begins, [addItem] is idempotent and the first write wins: on a
    registry that has the key of the issue it changes nothing; an entry
    that is present keeps its item; and, from the empty registry, the
    number of entries is the number of distinct keys added, each entry
    being the item of the first issue added with that key.  (Two
    goroutines inside [addItem] at once are another matter: see
    [Goroutines.first_write_is_overwritten].) *)
Theorem addItem_idempotent_first_write_wins (issues : list Issue) :
  (forall m issue,
     isItemPresent m (Key issue) = true -> addItem issue m = m) /\
  (forall m k item,
     issueItems m !! k = Some item ->
     issueItems (addItems m issues) !! k = Some item) /\
  size (issueItems (addItems emptyMenu issues)) =
    length (remove_dups (Key <$> issues)) /\
  (forall k,
     issueItems (addItems emptyMenu issues) !! k =
     newItem <$> head (filter (fun issue => Key issue = k) issues)).
Proof.
  split; [|split; [|split]].
  - intros m issue. apply addItem_present.
  - intros m k item Hk. rewrite addItems_lookup, Hk. reflexivity.
  - rewrite <- (size_dom (D := gset string)), addItems_dom. cbn.
    rewrite dom_empty_L, union_empty_r_L.
    rewrite <- (size_list_to_set (C := gset string) (remove_dups (Key <$> issues)))
      by apply NoDup_remove_dups.
    f_equal. apply set_eq. intros k.
    rewrite !elem_of_list_to_set, elem_of_remove_dups. reflexivity.
  - intros k. rewrite addItems_lookup. cbn. rewrite lookup_empty. reflexivity.
Qed.

(** PROJ-1 added twice, with two summaries: two entries, and PROJ-1 has
    the item of the first. *)
Lemma PROJ_1_added_twice :
  size (issueItems (addItems emptyMenu
          [ {| Key := "PROJ-1"; Summary := "Fix bug" |};
            {| Key := "PROJ-2"; Summary := "Write docs" |};
            {| Key := "PROJ-1"; Summary := "Fix it again" |} ])) = 2 /\
  issueItems (addItems emptyMenu
          [ {| Key := "PROJ-1"; Summary := "Fix bug" |};
            {| Key := "PROJ-2"; Summary := "Write docs" |};
            {| Key := "PROJ-1"; Summary := "Fix it again" |} ]) !! "PROJ-1" =
    Some {| title := "PROJ-1 - Fix bug"; tooltip := "Fix bug"; checked := false |}.
Proof.
  destruct (addItem_idempotent_first_write_wins
              [ {| Key := "PROJ-1"; Summary := "Fix bug" |};
                {| Key := "PROJ-2"; Summary := "Write docs" |};
                {| Key := "PROJ-1"; Summary := "Fix it again" |} ])
    as (_ & _ & Hsize & Hfirst).
  split.
  - rewrite Hsize. reflexivity.
  - rewrite Hfirst. reflexivity.
Defined.

(** ** What each function does to the menu *)

Lemma getIssues_menu e s : menu (snd (getIssues e s)) = menu s.
Proof.
  unfold getIssues.
  destruct (cmd_err (fe_login e)); [reflexivity|].
  destruct (cmd_err (fe_list e)); reflexivity.
Qed.

Lemma refresh_menu e s :
  menu (refresh e s) = addItems (menu s) (fst (fst (getIssues e s))).
Proof.
  unfold refresh. pose proof (getIssues_menu e s) as Hm.
  destruct (getIssues e s) as [[issues err] s']. cbn in *.
  destruct err; cbn; rewrite Hm; reflexivity.
Qed.

Lemma addWorkLog_menu key started d e s :
  menu (snd (addWorkLog key started d e s)) = menu s.
Proof.
  unfold addWorkLog.
  destruct (dlg_err (le_dialog e)); [reflexivity|].
  destruct (decide (Clicked (le_dialog e) ≠ "OK")); [reflexivity|].
  destruct (cmd_err (le_login e)); [reflexivity|].
  destruct (decide _); [reflexivity|].
  destruct (cmd_err (le_worklog e)); reflexivity.
Qed.

Lemma handleTimer_menu now e s : menu (handleTimer now e s) = menu s.
Proof.
  unfold handleTimer. destruct (timerStarted s).
  - pose proof (addWorkLog_menu (selectedKey (menu s)) (startTime (timer s))
                  (stop now (timer s)) e s) as Hm.
    destruct (addWorkLog _ _ _ e s) as [err s']. cbn in Hm.
    destruct err; exact Hm.
  - destruct (decide (selectedKey (menu s) = "")); reflexivity.
Qed.

Lemma addIssue_menu e s :
  menu (addIssue e s) = menu s \/
  exists issue, menu (addIssue e s) = addItem issue (menu s).
Proof.
  unfold addIssue.
  destruct (dlg_err (ae_dialog e)); [by left|].
  destruct (decide (Clicked (ae_dialog e) ≠ "OK")); [by left|].
  destruct (isItemPresent (menu s) (Text (ae_dialog e))); [by left|].
  destruct (cmd_err (ae_login e)); [by left|].
  destruct (cmd_err (ae_view e)); [by left|].
  destruct (ae_decoded e) as [issue [jerr|]]; [by left|].
  right. exists issue. reflexivity.
Qed.

(** ** The selection: [check] *)

Lemma check_selectedKey key m :
  selectedKey (check key m) = if isItemPresent m key then key else "".
Proof.
  unfold check, isItemPresent. rewrite lookup_fmap.
  destruct (issueItems m !! key); reflexivity.
Qed.

Lemma check_lookup key m k :
  issueItems (check key m) !! k =
  (fun item => if decide (k = key) then Check item else Uncheck item)
    <$> issueItems m !! k.
Proof.
  unfold check. rewrite lookup_fmap.
  destruct (issueItems m !! key) as [item|] eqn:Hkey; cbn.
  - destruct (decide (k = key)) as [->|Hne].
    + rewrite lookup_insert_eq, Hkey. reflexivity.
    + rewrite lookup_insert_ne by done. rewrite lookup_fmap.
      destruct (issueItems m !! k); reflexivity.
  - rewrite lookup_fmap. destruct (decide (k = key)) as [->|Hne].
    + rewrite Hkey. reflexivity.
    + destruct (issueItems m !! k); reflexivity.
Qed.


(** The selection is empty or names an entry of the registry. *)
Definition selection_valid (m : JiraMenu) : Prop :=
  selectedKey m = "" \/ is_Some (issueItems m !! selectedKey m).

(** No item is checked but that of the selection. *)
Definition checked_is_selected (m : JiraMenu) : Prop :=
  forall k item,
    issueItems m !! k = Some item -> checked item = true -> k = selectedKey m.

Definition menu_inv (m : JiraMenu) : Prop :=
  selection_valid m /\ checked_is_selected m.

Lemma menu_inv_empty : menu_inv emptyMenu.
Proof.
  split; [by left|]. intros k item H. cbn in H.
  rewrite lookup_empty in H. discriminate.
Qed.

Lemma menu_inv_addItem issue m : menu_inv m -> menu_inv (addItem issue m).
Proof.
  intros [Hsel Hchk]. split.
  - unfold selection_valid. rewrite addItem_selectedKey, addItem_lookup.
    destruct Hsel as [Hsel|[item Hitem]]; [by left|].
    right. rewrite Hitem. eauto.
  - intros k item. rewrite addItem_selectedKey, addItem_lookup.
    destruct (issueItems m !! k) as [item'|] eqn:Hk.
    + intros [= <-]. by apply Hchk.
    + destruct (decide (Key issue = k)); [|discriminate].
      intros [= <-]. discriminate.
Qed.

Lemma menu_inv_addItems issues : forall m,
  menu_inv m -> menu_inv (addItems m issues).
Proof.
  induction issues as [|issue issues IH]; intros m Hm; [exact Hm|].
  cbn. apply IH, menu_inv_addItem, Hm.
Qed.

Lemma menu_inv_check key m : menu_inv (check key m).
Proof.
  split.
  - unfold selection_valid. rewrite check_selectedKey.
    destruct (isItemPresent m key) eqn:Hp; [|by left].
    right. rewrite check_lookup.
    apply isItemPresent_true in Hp as [item ->]. cbn. eauto.
  - intros k item. rewrite check_lookup, check_selectedKey.
    destruct (issueItems m !! k) as [item'|] eqn:Hk; [|discriminate].
    cbn. destruct (decide (k = key)) as [->|Hne].
    + intros _ _. unfold isItemPresent. rewrite Hk. reflexivity.
    + intros [= <-]. discriminate.
Qed.

Lemma menu_inv_step s ev : menu_inv (menu s) -> menu_inv (menu (step s ev)).
Proof.
  intros Hinv. destruct ev as [key|e|e|now e]; cbn.
  - apply menu_inv_check.
  - destruct (addIssue_menu e s) as [->|[issue ->]]; [done|].
    by apply menu_inv_addItem.
  - rewrite refresh_menu. by apply menu_inv_addItems.
  - by rewrite handleTimer_menu.
Qed.

Lemma menu_inv_run evs : forall s,
  menu_inv (menu s) -> menu_inv (menu (run s evs)).
Proof.
  induction evs as [|ev evs IH]; intros s Hs; [exact Hs|].
  cbn. apply IH, menu_inv_step, Hs.
Qed.

Lemma menu_inv_onReady e : menu_inv (menu (onReady e)).
Proof.
  unfold onReady, NewJiraMenu. rewrite refresh_menu. cbn.
  apply menu_inv_addItems, menu_inv_empty.
Qed.

(** Only a click on an issue changes the selection. *)
Lemma step_selectedKey s ev :
  match ev with
  | IssueClicked key =>
    selectedKey (menu (step s ev)) =
    if isItemPresent (menu s) key then key else ""
  | _ => selectedKey (menu (step s ev)) = selectedKey (menu s)
  end.
Proof.
  destruct ev as [key|e|e|now e]; cbn.
  - apply check_selectedKey.
  - destruct (addIssue_menu e s) as [->|[issue ->]]; [done|].
    apply addItem_selectedKey.
  - rewrite refresh_menu. apply addItems_selectedKey.
  - by rewrite handleTimer_menu.
Qed.

(** After every click served, the selection is empty or the key of an
    entry of the registry, and no menu item but that of the selection is
    checked.  When a click makes a key the selection, that key was in
    the registry before the click. *)
Lemma selection_invariant_of_runs (e : FetchEnv) (evs : list Event) :
  selection_valid (menu (run (onReady e) evs)) /\
  checked_is_selected (menu (run (onReady e) evs)) /\
  (forall s ev,
     selectedKey (menu (step s ev)) <> selectedKey (menu s) ->
     selectedKey (menu (step s ev)) <> "" ->
     ev = IssueClicked (selectedKey (menu (step s ev))) /\
     is_Some (issueItems (menu s) !! selectedKey (menu (step s ev)))).
Proof.
  pose proof (menu_inv_run evs (onReady e) (menu_inv_onReady e)) as [H1 H2].
  split; [exact H1|]. split; [exact H2|].
  intros s ev Hchg Hne. pose proof (step_selectedKey s ev) as Hsel.
  destruct ev as [key|e'|e'|now e']; try congruence.
  destruct (isItemPresent (menu s) key) eqn:Hp; [|congruence].
  rewrite Hsel. split; [reflexivity|]. by apply isItemPresent_true.
Qed.


(** ** The work log: [addWorkLog] and [handleTimer] *)

Local Open Scope Z_scope.

(** The outside answers well: the dialog is closed with OK, a command
    succeeds. *)
Definition confirmed (r : Response) : Prop :=
  dlg_err r = None /\ Clicked r = "OK".
Definition succeeded (o : Output) : Prop := cmd_err o = None.

(** The keys of the work logs among some commands. *)
Definition worklog_keys (cs : list Cmd) : list string :=
  omap (fun c => match c with
                 | JiraWorklogAdd _ _ _ key => Some key
                 | _ => None
                 end) cs.

(** The [-m] argument of [jira worklog add]. *)
Definition message (r : Response) : option string :=
  if notBlank (Text r) then Some (Text r) else None.

Lemma durationTime_zero n : Itoa n +:+ "m" = "0m" <-> n = 0.
Proof.
  split; [|intros ->; reflexivity].
  intros H. apply (inj (pretty : Z -> string)). change (pretty 0) with "0".
  unfold Itoa in H. destruct (pretty n) as [|a [|b rest]].
  - discriminate.
  - injection H as ->. reflexivity.
  - injection H as _ H. destruct rest; discriminate.
Qed.

(** The four ways [addWorkLog] ends, by what it does to the state. *)
Lemma addWorkLog_dialog_failed key started d e s err :
  dlg_err (le_dialog e) = Some err ->
  addWorkLog key started d e s = (Some (Wrap err "could not ask for log messge"), s).
Proof. intros H. unfold addWorkLog. rewrite H. reflexivity. Qed.

Lemma addWorkLog_dismissed key started d e s :
  dlg_err (le_dialog e) = None -> Clicked (le_dialog e) <> "OK" ->
  addWorkLog key started d e s = (None, s).
Proof.
  intros H1 H2. unfold addWorkLog. rewrite H1.
  destruct (decide (Clicked (le_dialog e) ≠ "OK")); [reflexivity|contradiction].
Qed.

Definition logged (key : string) (e : LogEnv) (s : State) : State :=
  exec JiraLogin
    (log_Print ("Adding worklog for  " +:+ key +:+ " , message:  "
                +:+ Text (le_dialog e)) s).

Lemma addWorkLog_login_failed key started d e s err :
  confirmed (le_dialog e) -> cmd_err (le_login e) = Some err ->
  addWorkLog key started d e s = (Some (Wrap err "could not login!"), logged key e s).
Proof.
  intros [H1 H2] H3. unfold addWorkLog. rewrite H1.
  destruct (decide (Clicked (le_dialog e) ≠ "OK")); [contradiction|].
  rewrite H3. reflexivity.
Qed.

Lemma addWorkLog_too_short key started d e s :
  confirmed (le_dialog e) -> succeeded (le_login e) ->
  MinutesInt (Round d Minute) = 0 ->
  addWorkLog key started d e s =
  (Some "Cannot record a time log of < 1 minute", logged key e s).
Proof.
  intros [H1 H2] H3 H4. unfold addWorkLog. rewrite H1.
  destruct (decide (Clicked (le_dialog e) ≠ "OK")); [contradiction|].
  rewrite H3, H4. reflexivity.
Qed.

Lemma addWorkLog_submitted key started d e s :
  confirmed (le_dialog e) -> succeeded (le_login e) ->
  MinutesInt (Round d Minute) <> 0 ->
  addWorkLog key started d e s =
  (match cmd_err (le_worklog e) with
   | Some err => Some (Wrap err ("could not add worklog: " +:+ cmd_out (le_worklog e)))
   | None => None
   end,
   exec (JiraWorklogAdd (message (le_dialog e)) started
           (Itoa (MinutesInt (Round d Minute)) +:+ "m") key)
        (logged key e s)).
Proof.
  intros [H1 H2] H3 H4. unfold addWorkLog. rewrite H1.
  destruct (decide (Clicked (le_dialog e) ≠ "OK")); [contradiction|].
  rewrite H3.
  destruct (decide _) as [Hz|_]; [by apply durationTime_zero in Hz|].
  destruct (cmd_err (le_worklog e)); reflexivity.
Qed.

(** The commands [addWorkLog] runs: none, the login alone, or the login
    and one work log, which names [key] and starts at [started]. *)
Lemma addWorkLog_execs key started d e s :
  exists l, execs (snd (addWorkLog key started d e s)) = execs s ++ l /\
    (l = [] \/ l = [JiraLogin] \/
     (MinutesInt (Round d Minute) <> 0 /\
      l = [JiraLogin;
           JiraWorklogAdd (message (le_dialog e)) started
             (Itoa (MinutesInt (Round d Minute)) +:+ "m") key])).
Proof.
  destruct (dlg_err (le_dialog e)) as [err|] eqn:H1.
  { rewrite (addWorkLog_dialog_failed _ _ _ _ _ _ H1).
    exists []. split; [by rewrite app_nil_r|by left]. }
  destruct (decide (Clicked (le_dialog e) = "OK")) as [H2|H2].
  2:{ rewrite (addWorkLog_dismissed _ _ _ _ _ H1 H2).
      exists []. split; [by rewrite app_nil_r|by left]. }
  destruct (cmd_err (le_login e)) as [err|] eqn:H3.
  { rewrite (addWorkLog_login_failed _ _ _ _ _ _ (conj H1 H2) H3).
    exists [JiraLogin]. split; [reflexivity|]. right. by left. }
  destruct (decide (MinutesInt (Round d Minute) = 0)) as [H4|H4].
  { rewrite (addWorkLog_too_short _ _ _ _ _ (conj H1 H2) H3 H4).
    exists [JiraLogin]. split; [reflexivity|]. right. by left. }
  rewrite (addWorkLog_submitted _ _ _ _ _ (conj H1 H2) H3 H4).
  eexists. split; [|right; right; split; [exact H4|reflexivity]].
  cbn. rewrite <- app_assoc. reflexivity.
Qed.

(** [handleTimer] on a running timer, from the result of [addWorkLog]. *)
Lemma handleTimer_running now e s :
  timerStarted s = true ->
  handleTimer now e s =
  let r := addWorkLog (selectedKey (menu s)) (startTime (timer s))
             (stop now (timer s)) e s in
  with_timer false (timer s) "Start Timer"
    (match fst r with
     | Some msg => Alert msg (snd r)
     | None => snd r
     end).
Proof.
  intros H. unfold handleTimer. rewrite H. cbn zeta.
  pose proof (addWorkLog_menu (selectedKey (menu s)) (startTime (timer s))
                (stop now (timer s)) e s) as Hm.
  assert (Ht : timer (snd (addWorkLog (selectedKey (menu s)) (startTime (timer s))
                (stop now (timer s)) e s)) = timer s).
  { unfold addWorkLog.
    destruct (dlg_err (le_dialog e)); [reflexivity|].
    destruct (decide (Clicked (le_dialog e) ≠ "OK")); [reflexivity|].
    destruct (cmd_err (le_login e)); [reflexivity|].
    destruct (decide _); [reflexivity|].
    destruct (cmd_err (le_worklog e)); reflexivity. }
  destruct (addWorkLog _ _ _ e s) as [[msg|] s']; cbn in *; rewrite Ht; reflexivity.
Qed.

(** C4.  A click on the timer item while no timer runs and no issue is
    selected shows "No Issue Selected" and changes nothing else: no
    timer starts, the registry and the selection stay as they are, and
    nothing is run or logged. *)
Theorem timer_click_without_selection (now : Z) (e : LogEnv) (s : State) :
  timerStarted s = false ->
  selectedKey (menu s) = "" ->
  handleTimer now e s = Alert "No Issue Selected" s /\
  timerStarted (handleTimer now e s) = false /\
  timer (handleTimer now e s) = timer s /\
  timerTitle (handleTimer now e s) = timerTitle s /\
  menu (handleTimer now e s) = menu s /\
  execs (handleTimer now e s) = execs s /\
  logs (handleTimer now e s) = logs s /\
  alerts (handleTimer now e s) = alerts s ++ ["No Issue Selected"].
Proof.
  intros Hidle Hsel.
  assert (H : handleTimer now e s = Alert "No Issue Selected" s).
  { unfold handleTimer. rewrite Hidle.
    destruct (decide (selectedKey (menu s) = "")); [reflexivity|contradiction]. }
  rewrite H. cbn. rewrite Hidle. repeat split.
Qed.

(** C9.  When the dialog for the message of the work log is closed with
    a button other than OK, [addWorkLog] returns no error and leaves the
    state as it is: no command is run, nothing is logged, nothing is
    shown.  The timer is stopped all the same, so the elapsed time is
    lost. *)
Theorem dismissed_dialog_discards_time (now : Z) (e : LogEnv) (s : State) :
  timerStarted s = true ->
  dlg_err (le_dialog e) = None ->
  Clicked (le_dialog e) <> "OK" ->
  addWorkLog (selectedKey (menu s)) (startTime (timer s))
    (stop now (timer s)) e s = (None, s) /\
  handleTimer now e s = with_timer false (timer s) "Start Timer" s /\
  timerStarted (handleTimer now e s) = false /\
  execs (handleTimer now e s) = execs s /\
  alerts (handleTimer now e s) = alerts s /\
  logs (handleTimer now e s) = logs s.
Proof.
  intros Hrun Hdlg Hbtn.
  pose proof (addWorkLog_dismissed (selectedKey (menu s)) (startTime (timer s))
                (stop now (timer s)) e s Hdlg Hbtn) as Hw.
  split; [exact Hw|].
  rewrite (handleTimer_running _ _ _ Hrun), Hw. cbn. repeat split.
Qed.

(** ** Concrete answers of the outside, for the examples *)

Definition ok : Output := {| cmd_out := ""; cmd_err := None |}.
Definition failing (out err : string) : Output :=
  {| cmd_out := out; cmd_err := Some err |}.

Definition pressed (button text : string) : Response :=
  {| Clicked := button; Text := text; dlg_err := None |}.

(** JIRA lists two issues. *)
Definition two_issues : FetchEnv :=
  {| fe_login := ok; fe_list := ok;
     fe_decoded := ([ {| Key := "PROJ-1"; Summary := "Fix bug" |};
                      {| Key := "PROJ-2"; Summary := "Write docs" |} ], None) |}.

(** The user types a message and JIRA takes the work log. *)
Definition all_well (text : string) : LogEnv :=
  {| le_dialog := pressed "OK" text; le_login := ok; le_worklog := ok |}.

(** The program after start-up, with PROJ-1 selected and the timer
    started when the clock read 0. *)
Definition timing_PROJ_1 : State :=
  run (onReady two_issues) [IssueClicked "PROJ-1"; TimerClicked 0 (all_well "")].

(** ** Too short a session *)

Lemma MinutesInt_Round_one d :
  30 * Second <= d < 90 * Second -> MinutesInt (Round d Minute) = 1.
Proof.
  intros H. assert (HM : Minute = 60000000000) by reflexivity.
  assert (HS : Second = 1000000000) by reflexivity.
  rewrite Round_Minute_nonneg by (unfold maxDuration; lia).
  unfold MinutesInt. rewrite Z.quot_mul by discriminate.
  symmetry. apply (Z.div_unique _ _ 1 (d - 30 * Second)); lia.
Qed.

(** C2, as the program has it.  The elapsed time is rounded to the
    nearest minute, the half minute going up, so it is zero minutes
    exactly when it stays under 30 seconds.  Then no work log is sent,
    whatever the outside answers; and when the dialog is closed with OK
    and the login succeeds, the error "Cannot record a time log of < 1
    minute" is shown.  From 30 seconds on (so after 59 as after 60
    seconds) and under 90 seconds, a work log of "1m" is sent. *)
Theorem short_session_not_submitted (now : Z) (e : LogEnv) (s : State) :
  timerStarted s = true ->
  let d := stop now (timer s) in
  let s' := handleTimer now e s in
  (MinutesInt (Round d Minute) = 0 <-> - (30 * Second) < d < 30 * Second) /\
  (- (30 * Second) < d < 30 * Second ->
   exists l, execs s' = execs s ++ l /\ (l = [] \/ l = [JiraLogin])) /\
  (confirmed (le_dialog e) -> succeeded (le_login e) ->
   (- (30 * Second) < d < 30 * Second ->
    alerts s' = alerts s ++ ["Cannot record a time log of < 1 minute"] /\
    execs s' = execs s ++ [JiraLogin]) /\
   (30 * Second <= d < 90 * Second ->
    execs s' = execs s ++
      [JiraLogin;
       JiraWorklogAdd (message (le_dialog e)) (startTime (timer s)) "1m"
         (selectedKey (menu s))])).
Proof.
  intros Hrun d s'.
  assert (Hz : MinutesInt (Round d Minute) = 0 <-> - (30 * Second) < d < 30 * Second).
  { apply MinutesInt_Round_zero, Since_range. }
  split; [exact Hz|]. subst s'. rewrite (handleTimer_running _ _ _ Hrun). cbn zeta.
  fold d. split; [|intros Hdlg Hlogin; split].
  - intros Hd. apply Hz in Hd.
    destruct (addWorkLog_execs (selectedKey (menu s)) (startTime (timer s)) d e s)
      as (l & Hl & Hcases).
    exists l. split.
    + rewrite <- Hl. destruct (addWorkLog _ _ d e s) as [[msg|] s1]; reflexivity.
    + destruct Hcases as [->|[->|[Hnz _]]]; [by left|by right|contradiction].
  - intros Hd. apply Hz in Hd.
    rewrite (addWorkLog_too_short _ _ _ _ _ Hdlg Hlogin Hd). split; reflexivity.
  - intros Hd. pose proof (MinutesInt_Round_one d Hd) as H1.
    rewrite (addWorkLog_submitted _ _ _ _ _ Hdlg Hlogin) by (rewrite H1; discriminate).
    rewrite H1. cbn. destruct (cmd_err (le_worklog e)); cbn;
      rewrite <- app_assoc; reflexivity.
Qed.

(** After 29 seconds the error is shown and only the login is run. *)
Lemma short_session_29_seconds :
  alerts (handleTimer (29 * Second) (all_well "done") timing_PROJ_1) =
    ["Cannot record a time log of < 1 minute"] /\
  execs (handleTimer (29 * Second) (all_well "done") timing_PROJ_1) =
    execs timing_PROJ_1 ++ [JiraLogin].
Proof.
  destruct (short_session_not_submitted (29 * Second) (all_well "done")
              timing_PROJ_1 eq_refl) as (_ & _ & H).
  destruct (H (conj eq_refl eq_refl) eq_refl) as [H29 _].
  apply H29. vm_compute. split; reflexivity.
Defined.

(** C2 as the specification has it fails: after exactly 59 seconds the
    rounded duration is one minute, no error is shown and a work log of
    "1m" is sent. *)
Lemma stop_after_59_seconds_submits :
  stop (59 * Second) (timer timing_PROJ_1) = 59 * Second /\
  MinutesInt (Round (59 * Second) Minute) = 1 /\
  alerts (handleTimer (59 * Second) (all_well "done") timing_PROJ_1) = [] /\
  execs (handleTimer (59 * Second) (all_well "done") timing_PROJ_1) =
    execs timing_PROJ_1 ++ [JiraLogin; JiraWorklogAdd (Some "done") 0 "1m" "PROJ-1"].
Proof. vm_compute. repeat split. Qed.

(** ** A session: from the click that starts the timer to the click
    that stops it *)

Definition is_timer_click (ev : Event) : bool :=
  match ev with TimerClicked _ _ => true | _ => false end.
Definition is_issue_click (ev : Event) : bool :=
  match ev with IssueClicked _ => true | _ => false end.

Lemma getIssues_timer e s :
  timerStarted (snd (getIssues e s)) = timerStarted s /\
  timer (snd (getIssues e s)) = timer s.
Proof.
  unfold getIssues.
  destruct (cmd_err (fe_login e)); [by split|].
  destruct (cmd_err (fe_list e)); by split.
Qed.

(** The timer belongs to [handleTimer]: no other click touches it. *)
Lemma step_timer s ev :
  is_timer_click ev = false ->
  timerStarted (step s ev) = timerStarted s /\ timer (step s ev) = timer s.
Proof.
  destruct ev as [key|e|e|now e]; intros Hev; try discriminate; cbn.
  - by split.
  - unfold addIssue.
    destruct (dlg_err (ae_dialog e)); [by split|].
    destruct (decide (Clicked (ae_dialog e) ≠ "OK")); [by split|].
    destruct (isItemPresent (menu s) (Text (ae_dialog e))); [by split|].
    destruct (cmd_err (ae_login e)); [by split|].
    destruct (cmd_err (ae_view e)); [by split|].
    destruct (ae_decoded e) as [issue [jerr|]]; by split.
  - unfold refresh. pose proof (getIssues_timer e s) as Ht.
    destruct (getIssues e s) as [[issues [msg|]] s1]; exact Ht.
Qed.

Lemma run_cons s ev evs : run s (ev :: evs) = run (step s ev) evs.
Proof. reflexivity. Qed.

Lemma run_timer evs : forall s,
  Forall (fun ev => is_timer_click ev = false) evs ->
  timerStarted (run s evs) = timerStarted s /\ timer (run s evs) = timer s.
Proof.
  induction evs as [|ev evs IH]; intros s Hevs; [by split|].
  inversion Hevs as [|? ? Hev Hrest]; subst. rewrite run_cons.
  destruct (IH (step s ev) Hrest) as [-> ->]. by apply step_timer.
Qed.

Lemma run_selectedKey evs : forall s,
  Forall (fun ev => is_issue_click ev = false) evs ->
  selectedKey (menu (run s evs)) = selectedKey (menu s).
Proof.
  induction evs as [|ev evs IH]; intros s Hevs; [reflexivity|].
  inversion Hevs as [|? ? Hev Hrest]; subst.
  rewrite run_cons, (IH _ Hrest). pose proof (step_selectedKey s ev) as Hsel.
  destruct ev; [discriminate|exact Hsel..].
Qed.

(** C1, as the program has it.  A session starts at [s0] with an issue
    selected, other clicks [mid] are served while the timer runs, and
    the timer is stopped.  The timer keeps the time of its start and no
    key.  The commands run at the stop send at most one work log, and it
    names the issue selected at the stop; one is sent when the dialog is
    closed with OK, the login succeeds and the rounded time is not zero.
    That issue is the one selected at the start when no issue was
    clicked in between. *)
Theorem worklog_names_selection_at_stop
  (s0 : State) (t0 : Z) (e0 : LogEnv) (mid : list Event) (t1 : Z) (e1 : LogEnv) :
  timerStarted s0 = false ->
  selectedKey (menu s0) <> "" ->
  Forall (fun ev => is_timer_click ev = false) mid ->
  let s1 := step s0 (TimerClicked t0 e0) in
  let s2 := run s1 mid in
  let s3 := step s2 (TimerClicked t1 e1) in
  (timerStarted s2 = true /\ timer s2 = {| startTime := t0 |}) /\
  timerStarted s3 = false /\
  (exists l, execs s3 = execs s2 ++ l /\
     (worklog_keys l = [] \/ worklog_keys l = [selectedKey (menu s2)]) /\
     (confirmed (le_dialog e1) -> succeeded (le_login e1) ->
      MinutesInt (Round (Since t0 t1) Minute) <> 0 ->
      worklog_keys l = [selectedKey (menu s2)])) /\
  (Forall (fun ev => is_issue_click ev = false) mid ->
   selectedKey (menu s2) = selectedKey (menu s0)).
Proof.
  intros Hidle Hsel Hmid s1 s2 s3.
  assert (H1 : s1 = with_timer true {| startTime := t0 |} "Stop Timer" s0).
  { subst s1. cbn. unfold handleTimer. rewrite Hidle.
    destruct (decide (selectedKey (menu s0) = "")); [contradiction|reflexivity]. }
  destruct (run_timer mid s1 Hmid) as [Hrun Htimer]. fold s2 in Hrun, Htimer.
  rewrite H1 in Hrun, Htimer. cbn in Hrun, Htimer.
  split; [by split|].
  assert (H3 : s3 = handleTimer t1 e1 s2) by reflexivity.
  rewrite (handleTimer_running _ _ _ Hrun) in H3. cbn zeta in H3.
  unfold stop in H3. rewrite Htimer in H3. cbn [startTime] in H3.
  split; [by rewrite H3|]. split.
  - destruct (addWorkLog_execs (selectedKey (menu s2)) t0 (Since t0 t1) e1 s2)
      as (l & Hl & Hcases).
    exists l. split; [|split].
    + rewrite H3, <- Hl.
      destruct (addWorkLog _ _ _ e1 s2) as [[msg|] s']; reflexivity.
    + destruct Hcases as [->|[->|[_ ->]]]; [by left|by left|by right].
    + intros Hdlg Hlogin Hnz.
      rewrite (addWorkLog_submitted _ _ _ _ _ Hdlg Hlogin Hnz) in Hl. cbn in Hl.
      rewrite <- app_assoc in Hl. apply app_inv_head in Hl. by subst l.
  - intros Hno. subst s2. rewrite (run_selectedKey _ _ Hno), H1. reflexivity.
Qed.

(** With PROJ-1 selected from start to stop, the work log of a session
    of 125 seconds names PROJ-1. *)
Lemma worklog_of_unchanged_selection :
  exists l,
    execs (run (onReady two_issues)
             [IssueClicked "PROJ-1"; TimerClicked 0 (all_well "");
              RefreshClicked two_issues;
              TimerClicked (125 * Second) (all_well "done")]) =
    execs (run (onReady two_issues)
             [IssueClicked "PROJ-1"; TimerClicked 0 (all_well "");
              RefreshClicked two_issues]) ++ l /\
    worklog_keys l = ["PROJ-1"].
Proof.
  destruct (worklog_names_selection_at_stop
              (run (onReady two_issues) [IssueClicked "PROJ-1"])
              0 (all_well "") [RefreshClicked two_issues]
              (125 * Second) (all_well "done"))
    as (_ & _ & (l & Hl & _ & Hk) & _).
  - reflexivity.
  - discriminate.
  - repeat constructor.
  - exists l. split; [exact Hl|]. apply Hk.
    + split; reflexivity.
    + reflexivity.
    + vm_compute. discriminate.
Defined.

(** C1 as the specification has it fails: PROJ-1 is selected when the
    timer starts, PROJ-2 is clicked while it runs, and the work log sent
    at the stop names PROJ-2. *)
Lemma worklog_names_changed_selection :
  selectedKey (menu (run (onReady two_issues) [IssueClicked "PROJ-1"])) = "PROJ-1" /\
  timerStarted (run (onReady two_issues)
                  [IssueClicked "PROJ-1"; TimerClicked 0 (all_well "")]) = true /\
  execs (run (onReady two_issues)
           [IssueClicked "PROJ-1"; TimerClicked 0 (all_well "");
            IssueClicked "PROJ-2";
            TimerClicked (125 * Second) (all_well "done")]) =
  [JiraLogin; JiraList; JiraLogin; JiraWorklogAdd (Some "done") 0 "2m" "PROJ-2"].
Proof. vm_compute. repeat split. Qed.

(** ** Examples of the selection and of the timer *)

(** A timer click right after start-up, nothing being selected. *)
Lemma timer_click_after_startup :
  alerts (handleTimer 0 (all_well "") (onReady two_issues)) = ["No Issue Selected"] /\
  timerStarted (handleTimer 0 (all_well "") (onReady two_issues)) = false.
Proof.
  destruct (timer_click_without_selection 0 (all_well "") (onReady two_issues)
              eq_refl eq_refl) as (_ & Hidle & _ & _ & _ & _ & _ & Halert).
  split; [exact Halert|exact Hidle].
Defined.

(** The dialog of the work log closed with Cancel after 125 seconds. *)
Lemma cancel_after_125_seconds :
  execs (handleTimer (125 * Second)
           {| le_dialog := pressed "Cancel" ""; le_login := ok; le_worklog := ok |}
           timing_PROJ_1) = execs timing_PROJ_1 /\
  alerts (handleTimer (125 * Second)
           {| le_dialog := pressed "Cancel" ""; le_login := ok; le_worklog := ok |}
           timing_PROJ_1) = [].
Proof.
  destruct (dismissed_dialog_discards_time (125 * Second)
              {| le_dialog := pressed "Cancel" ""; le_login := ok; le_worklog := ok |}
              timing_PROJ_1 eq_refl eq_refl) as (_ & _ & _ & Hexecs & Halerts & _).
  - discriminate.
  - split; [exact Hexecs|exact Halerts].
Defined.



(** ** Failures of the [jira] commands *)

Lemma getIssues_alerts e s : alerts (snd (getIssues e s)) = alerts s.
Proof.
  unfold getIssues.
  destruct (cmd_err (fe_login e)); [reflexivity|].
  destruct (cmd_err (fe_list e)); reflexivity.
Qed.

(** [refresh] shows nothing to the user, whatever happens. *)
Lemma refresh_alerts e s : alerts (refresh e s) = alerts s.
Proof.
  unfold refresh. pose proof (getIssues_alerts e s) as Ha.
  destruct (getIssues e s) as [[issues [msg|]] s1]; exact Ha.
Qed.

Lemma refresh_login_failed e s err :
  cmd_err (fe_login e) = Some err ->
  menu (refresh e s) = menu s /\
  logs (refresh e s) = logs s ++ [Wrap err "could not login"] /\
  execs (refresh e s) = execs s ++ [JiraLogin].
Proof.
  intros H. unfold refresh, getIssues. rewrite H. cbn. by destruct (menu s).
Qed.

Lemma refresh_list_failed e s err :
  succeeded (fe_login e) -> cmd_err (fe_list e) = Some err ->
  menu (refresh e s) = menu s /\
  logs (refresh e s) = logs s ++ [Wrap err "could not list assigned issues"] /\
  execs (refresh e s) = execs s ++ [JiraLogin; JiraList].
Proof.
  intros H1 H2. unfold refresh, getIssues. rewrite H1, H2. cbn.
  rewrite <- app_assoc. by destruct (menu s).
Qed.

Lemma refresh_fetched e s :
  succeeded (fe_login e) -> succeeded (fe_list e) ->
  menu (refresh e s) = addItems (menu s) (fst (fe_decoded e)) /\
  logs (refresh e s) =
    logs s ++ match snd (fe_decoded e) with Some err => [err] | None => [] end /\
  execs (refresh e s) = execs s ++ [JiraLogin; JiraList].
Proof.
  intros H1 H2. unfold refresh, getIssues. rewrite H1, H2.
  destruct (fe_decoded e) as [issues [err|]]; cbn;
    rewrite <- app_assoc, ?app_nil_r; by repeat split.
Qed.

(** C8, as the program has it.  No failure of a [jira] command ends the
    program: every function returns and [step] gives the next state.
    When the timer is stopped and the dialog is closed with OK, a failed
    login and a failed [worklog add] are shown in an alert.  When an
    issue is added, a failed [view] is shown in an alert and the
    registry is left as it is.  When the issues are refreshed, a failed
    login or [list] is written to the log; nothing is shown, and the
    registry is left as it is. *)
Theorem jira_failures_reported (s : State) :
  (forall now e err,
     timerStarted s = true -> confirmed (le_dialog e) ->
     cmd_err (le_login e) = Some err ->
     alerts (handleTimer now e s) = alerts s ++ [Wrap err "could not login!"]) /\
  (forall now e err,
     timerStarted s = true -> confirmed (le_dialog e) ->
     succeeded (le_login e) ->
     MinutesInt (Round (stop now (timer s)) Minute) <> 0 ->
     cmd_err (le_worklog e) = Some err ->
     alerts (handleTimer now e s) =
       alerts s ++ [Wrap err ("could not add worklog: " +:+ cmd_out (le_worklog e))]) /\
  (forall e err,
     confirmed (ae_dialog e) ->
     isItemPresent (menu s) (Text (ae_dialog e)) = false ->
     succeeded (ae_login e) -> cmd_err (ae_view e) = Some err ->
     alerts (addIssue e s) = alerts s ++ ["Could not find that issue!"] /\
     menu (addIssue e s) = menu s) /\
  (forall e err,
     cmd_err (fe_login e) = Some err ->
     alerts (refresh e s) = alerts s /\
     logs (refresh e s) = logs s ++ [Wrap err "could not login"] /\
     menu (refresh e s) = menu s) /\
  (forall e err,
     succeeded (fe_login e) -> cmd_err (fe_list e) = Some err ->
     alerts (refresh e s) = alerts s /\
     logs (refresh e s) = logs s ++ [Wrap err "could not list assigned issues"] /\
     menu (refresh e s) = menu s).
Proof.
  split; [|split; [|split; [|split]]].
  - intros now e err Hrun Hdlg Hlogin.
    rewrite (handleTimer_running _ _ _ Hrun). cbn zeta.
    rewrite (addWorkLog_login_failed _ _ _ _ _ _ Hdlg Hlogin). reflexivity.
  - intros now e err Hrun Hdlg Hlogin Hnz Hsubmit.
    rewrite (handleTimer_running _ _ _ Hrun). cbn zeta.
    rewrite (addWorkLog_submitted _ _ _ _ _ Hdlg Hlogin Hnz), Hsubmit. reflexivity.
  - intros e err [Hdlg Hbtn] Habsent Hlogin Hview. unfold addIssue.
    rewrite Hdlg, Habsent, Hlogin, Hview.
    destruct (decide (Clicked (ae_dialog e) ≠ "OK")); [contradiction|].
    split; reflexivity.
  - intros e err Hlogin.
    destruct (refresh_login_failed e s err Hlogin) as (Hm & Hl & _).
    split; [apply refresh_alerts|]. by split.
  - intros e err Hlogin Hlist.
    destruct (refresh_list_failed e s err Hlogin Hlist) as (Hm & Hl & _).
    split; [apply refresh_alerts|]. by split.
Qed.

(** C8 as the specification has it fails: the login of a refresh fails,
    and the user is shown nothing; the failure is in the log only. *)
Lemma failed_refresh_is_not_shown :
  alerts (step (onReady two_issues)
            (RefreshClicked {| fe_login := failing "" "exit status 1";
                               fe_list := ok; fe_decoded := ([], None) |})) = [] /\
  logs (step (onReady two_issues)
          (RefreshClicked {| fe_login := failing "" "exit status 1";
                             fe_list := ok; fe_decoded := ([], None) |})) =
    ["could not login: exit status 1"].
Proof. vm_compute. split; reflexivity. Qed.

(** JIRA refuses the work log of a session of 125 seconds: the user is
    shown why. *)
Lemma refused_worklog_is_shown :
  alerts (handleTimer (125 * Second)
            {| le_dialog := pressed "OK" "done"; le_login := ok;
               le_worklog := failing "issue is closed" "exit status 1" |}
            timing_PROJ_1) =
    ["could not add worklog: issue is closed: exit status 1"].
Proof.
  destruct (jira_failures_reported timing_PROJ_1) as (_ & Hsubmit & _).
  apply (Hsubmit (125 * Second)
           {| le_dialog := pressed "OK" "done"; le_login := ok;
              le_worklog := failing "issue is closed" "exit status 1" |}
           "exit status 1").
  - reflexivity.
  - split; reflexivity.
  - reflexivity.
  - vm_compute. discriminate.
  - reflexivity.
Defined.

(** ** Start-up *)

(** C10, as the program has it.  [onReady] builds the menu, which
    fetches the issues once, before the loops that serve the clicks are
    started: one login and at most one [list] are run, no timer runs and
    nothing is selected.  Nothing is ever shown to the user.  When the
    login or [list] fails, the failure is written to the log and the
    registry starts empty.  When the decoding of the list fails, the
    failure is written to the log as well, and the issues decoded all
    the same are in the registry. *)
Theorem startup_fetch (e : FetchEnv) :
  alerts (onReady e) = [] /\
  timerStarted (onReady e) = false /\
  selectedKey (menu (onReady e)) = "" /\
  (execs (onReady e) = [JiraLogin] \/ execs (onReady e) = [JiraLogin; JiraList]) /\
  (forall err,
     cmd_err (fe_login e) = Some err ->
     issueItems (menu (onReady e)) = ∅ /\
     logs (onReady e) = [Wrap err "could not login"]) /\
  (forall err,
     succeeded (fe_login e) -> cmd_err (fe_list e) = Some err ->
     issueItems (menu (onReady e)) = ∅ /\
     logs (onReady e) = [Wrap err "could not list assigned issues"]) /\
  (succeeded (fe_login e) -> succeeded (fe_list e) ->
   menu (onReady e) = addItems emptyMenu (fst (fe_decoded e)) /\
   logs (onReady e) =
     match snd (fe_decoded e) with Some err => [err] | None => [] end).
Proof.
  unfold onReady, NewJiraMenu.
  set (s0 := with_menu _ _).
  split; [apply refresh_alerts|].
  split; [destruct (step_timer s0 (RefreshClicked e) eq_refl) as [H _]; exact H|].
  split; [rewrite refresh_menu; apply addItems_selectedKey|].
  split; [|split; [|split]].
  - destruct (cmd_err (fe_login e)) as [err|] eqn:Hlogin.
    { left. by destruct (refresh_login_failed e s0 err Hlogin) as (_ & _ & ->). }
    right. destruct (cmd_err (fe_list e)) as [err|] eqn:Hlist.
    { by destruct (refresh_list_failed e s0 err Hlogin Hlist) as (_ & _ & ->). }
    by destruct (refresh_fetched e s0 Hlogin Hlist) as (_ & _ & ->).
  - intros err Hlogin.
    destruct (refresh_login_failed e s0 err Hlogin) as (-> & -> & _). by split.
  - intros err Hlogin Hlist.
    destruct (refresh_list_failed e s0 err Hlogin Hlist) as (-> & -> & _). by split.
  - intros Hlogin Hlist.
    destruct (refresh_fetched e s0 Hlogin Hlist) as (-> & -> & _). by split.
Qed.

(** The login fails at start-up: the registry is empty and the log has
    the failure. *)
Lemma startup_without_login :
  issueItems (menu (onReady {| fe_login := failing "" "exit status 1";
                               fe_list := ok; fe_decoded := ([], None) |})) = ∅ /\
  logs (onReady {| fe_login := failing "" "exit status 1";
                   fe_list := ok; fe_decoded := ([], None) |}) =
    ["could not login: exit status 1"].
Proof.
  destruct (startup_fetch {| fe_login := failing "" "exit status 1";
                             fe_list := ok; fe_decoded := ([], None) |})
    as (_ & _ & _ & _ & Hlogin & _).
  apply (Hlogin "exit status 1"). reflexivity.
Defined.

(** [jira list] answers with a summary that is a number, not a string:
    the decoder fills in the key, skips the summary, and returns an
    error for it. *)
Definition half_decoded : FetchEnv :=
  {| fe_login := ok; fe_list := ok;
     fe_decoded :=
       ([ {| Key := "PROJ-1"; Summary := "" |} ],
        Some "json: cannot unmarshal number into Go struct field .issues.fields.summary of type string") |}.

(** C10 as the specification has it fails: [jira list] answers
    [{"issues":[{"key":"PROJ-1","fields":{"summary":7}}]}]; the decoder
    fills in the key, skips the summary and returns an error for it, so
    the fetch fails, and yet the registry starts with PROJ-1. *)
Lemma failed_decoding_fills_registry :
  fst (getIssues half_decoded initial) =
    ([ {| Key := "PROJ-1"; Summary := "" |} ],
     Some "json: cannot unmarshal number into Go struct field .issues.fields.summary of type string") /\
  logs (onReady half_decoded) =
    ["json: cannot unmarshal number into Go struct field .issues.fields.summary of type string"] /\
  isItemPresent (menu (onReady half_decoded)) "PROJ-1" = true /\
  size (issueItems (menu (onReady half_decoded))) = 1%nat.
Proof. repeat split. Qed.

End Tracker.

(** ** The goroutines

    [onReady] starts one goroutine for each kind of click: the loop of
    [handleTimer], the loop over [issueClickedCh] that calls [check],
    the loop that calls [addIssue], the loop that calls [refresh], and
    one that waits for Quit.  They share the menu.  Here each loop has
    its own place in its code, and a step of the program is a step of
    one loop; the steps are cut where the code takes or releases the
    lock of the menu, reads or writes the menu, or waits for the
    outside. *)
Module Goroutines.
Import Duration Tracker.

(** [sync.RWMutex]: how many readers hold it, whether a writer holds it.
    An operation that would block gives [None]: the step is not enabled.
    (Go also holds back new readers while a writer waits; that only
    removes interleavings.) *)
Record RWMutex := { readers : nat; writer : bool }.

Definition RLock (mu : RWMutex) : option RWMutex :=
  if writer mu then None
  else Some {| readers := S (readers mu); writer := false |}.
Definition RUnlock (mu : RWMutex) : RWMutex :=
  {| readers := Nat.pred (readers mu); writer := writer mu |}.
Definition Lock (mu : RWMutex) : option RWMutex :=
  if writer mu then None
  else match readers mu with
       | O => Some {| readers := 0; writer := true |}
       | S _ => None
       end.
Definition Unlock (mu : RWMutex) : RWMutex :=
  {| readers := readers mu; writer := false |}.

(** Places in [isItemPresent]: before [RLock], before the lookup, before
    [RUnlock] with the result of the lookup. *)
Inductive PresentPc := PrRLock | PrRead | PrRUnlock (ok : bool).

(** Places in [addItem]: in [isItemPresent], before [Lock], before the
    item is made and stored, before [Unlock]. *)
Inductive AddItemPc := AiPresent (pc : PresentPc) | AiLock | AiWrite | AiUnlock.

(** Places in the loop over [issueClickedCh]: waiting for a key; in
    [check key] before [selectedKey] is emptied, before [RLock], before
    the items are unchecked and the one of [key] checked, before
    [RUnlock]. *)
Inductive ClickPc :=
| CkIdle | CkClear (key : string) | CkRLock (key : string)
| CkMark (key : string) | CkRUnlock.

(** Places in the loop of [refresh]: waiting for a click; in
    [getIssues]; in [addItem] of one issue, the rest to follow. *)
Inductive RefreshPc :=
| RfIdle | RfFetch | RfAdd (issue : Issue) (pc : AddItemPc) (rest : list Issue).

(** Places in the loop of [addIssue]: waiting for a click; in the
    dialog; in [isItemPresent] of the text typed; in [jira login]; in
    [jira view]; in [addItem] of the issue found. *)
Inductive AddPc :=
| AdIdle | AdDialog | AdPresent (text : string) (pc : PresentPc)
| AdLogin (text : string) | AdView (text : string)
| AdAdd (issue : Issue) (pc : AddItemPc).

(** Places in the loop of [handleTimer]: waiting for a click; clicked
    when the clock read [now]; in [addWorkLog], its arguments
    evaluated. *)
Inductive TimerPc :=
| TmIdle | TmClicked (now : Z) | TmWorkLog (key : string) (started d : Z).

(** The whole program: the state of [Tracker], the lock of the menu,
    where each loop is, and whether Quit was clicked. *)
Record Sys := {
  st : State;
  mu : RWMutex;
  ck : ClickPc;
  ad : AddPc;
  rf : RefreshPc;
  tm : TimerPc;
  quit : bool }.

Definition with_st (s : State) (x : Sys) : Sys :=
  {| st := s; mu := mu x; ck := ck x; ad := ad x; rf := rf x; tm := tm x;
     quit := quit x |}.
Definition with_mu (m : RWMutex) (x : Sys) : Sys :=
  {| st := st x; mu := m; ck := ck x; ad := ad x; rf := rf x; tm := tm x;
     quit := quit x |}.
Definition with_ck (pc : ClickPc) (x : Sys) : Sys :=
  {| st := st x; mu := mu x; ck := pc; ad := ad x; rf := rf x; tm := tm x;
     quit := quit x |}.
Definition with_ad (pc : AddPc) (x : Sys) : Sys :=
  {| st := st x; mu := mu x; ck := ck x; ad := pc; rf := rf x; tm := tm x;
     quit := quit x |}.
Definition with_rf (pc : RefreshPc) (x : Sys) : Sys :=
  {| st := st x; mu := mu x; ck := ck x; ad := ad x; rf := pc; tm := tm x;
     quit := quit x |}.
Definition with_tm (pc : TimerPc) (x : Sys) : Sys :=
  {| st := st x; mu := mu x; ck := ck x; ad := ad x; rf := rf x; tm := pc;
     quit := quit x |}.
Definition with_quit (x : Sys) : Sys :=
  {| st := st x; mu := mu x; ck := ck x; ad := ad x; rf := rf x; tm := tm x;
     quit := true |}.

(** One step inside [isItemPresent key]: the place it leads to, or the
    result when it returns. *)
Definition isItemPresent_step (key : string) (pc : PresentPc) (x : Sys)
  : option ((PresentPc + bool) * Sys) :=
  match pc with
  | PrRLock => m ← RLock (mu x); Some (inl PrRead, with_mu m x)
  | PrRead => Some (inl (PrRUnlock (isItemPresent (menu (st x)) key)), x)
  | PrRUnlock ok => Some (inr ok, with_mu (RUnlock (mu x)) x)
  end.

(** The store of [addItem]: [menu.issueItems[issue.Key] = item]. *)
Definition store (issue : Issue) (m : JiraMenu) : JiraMenu :=
  let item := AddMenuItem (Key issue +:+ " - " +:+ Summary issue) (Summary issue) in
  {| issueItems := <[Key issue := item]> (issueItems m);
     selectedKey := selectedKey m |}.

(** One step inside [addItem issue]: the place it leads to, or [None]
    when it returns. *)
Definition addItem_step (issue : Issue) (pc : AddItemPc) (x : Sys)
  : option (option AddItemPc * Sys) :=
  match pc with
  | AiPresent pc =>
    '(r, x) ← isItemPresent_step (Key issue) pc x;
    match r with
    | inl pc => Some (Some (AiPresent pc), x)
    | inr true => Some (None, x)
    | inr false => Some (Some AiLock, x)
    end
  | AiLock => m ← Lock (mu x); Some (Some AiWrite, with_mu m x)
  | AiWrite => Some (Some AiUnlock, with_st (with_menu (store issue) (st x)) x)
  | AiUnlock => Some (None, with_mu (Unlock (mu x)) x)
  end.

(** [check], in its two writes: [selectedKey] emptied before the lock is
    taken, and the items marked under the read lock. *)
Definition clear (m : JiraMenu) : JiraMenu :=
  {| issueItems := issueItems m; selectedKey := "" |}.
Definition mark (key : string) (m : JiraMenu) : JiraMenu :=
  let items := Uncheck <$> issueItems m in
  match items !! key with
  | Some item =>
    {| issueItems := <[key := Check item]> items; selectedKey := key |}
  | None =>
    {| issueItems := items; selectedKey := selectedKey m |}
  end.

Definition click_step (x : Sys) : option Sys :=
  match ck x with
  | CkIdle => None
  | CkClear key => Some (with_ck (CkRLock key) (with_st (with_menu clear (st x)) x))
  | CkRLock key => m ← RLock (mu x); Some (with_ck (CkMark key) (with_mu m x))
  | CkMark key => Some (with_ck CkRUnlock (with_st (with_menu (mark key) (st x)) x))
  | CkRUnlock => Some (with_ck CkIdle (with_mu (RUnlock (mu x)) x))
  end.

(** After [addItem] of one issue, [refresh] goes on with the next. *)
Definition refresh_next (issues : list Issue) : RefreshPc :=
  match issues with
  | [] => RfIdle
  | issue :: rest => RfAdd issue (AiPresent PrRLock) rest
  end.

Definition refresh_step (e : FetchEnv) (x : Sys) : option Sys :=
  match rf x with
  | RfIdle => None
  | RfFetch =>
    let '((issues, err), s) := getIssues e (st x) in
    let s := match err with
             | Some msg => log_Print msg s
             | None => s
             end in
    Some (with_rf (refresh_next issues) (with_st s x))
  | RfAdd issue pc rest =>
    '(r, x) ← addItem_step issue pc x;
    match r with
    | Some pc => Some (with_rf (RfAdd issue pc rest) x)
    | None => Some (with_rf (refresh_next rest) x)
    end
  end.

Definition add_step (e : AddEnv) (x : Sys) : option Sys :=
  match ad x with
  | AdIdle => None
  | AdDialog =>
    let resp := ae_dialog e in
    match dlg_err resp with
    | Some _ => Some (with_ad AdIdle x)
    | None =>
      if decide (Clicked resp ≠ "OK") then Some (with_ad AdIdle x)
      else Some (with_ad (AdPresent (Text resp) PrRLock) x)
    end
  | AdPresent text pc =>
    '(r, x) ← isItemPresent_step text pc x;
    match r with
    | inl pc => Some (with_ad (AdPresent text pc) x)
    | inr true => Some (with_ad AdIdle (with_st (Alert "Issue already there!" (st x)) x))
    | inr false => Some (with_ad (AdLogin text) x)
    end
  | AdLogin text =>
    let x := with_st (exec JiraLogin (st x)) x in
    match cmd_err (ae_login e) with
    | Some _ => Some (with_ad AdIdle x)
    | None => Some (with_ad (AdView text) x)
    end
  | AdView text =>
    let x := with_st (exec (JiraView text) (st x)) x in
    match cmd_err (ae_view e) with
    | Some _ =>
      Some (with_ad AdIdle (with_st (Alert "Could not find that issue!" (st x)) x))
    | None =>
      match ae_decoded e with
      | (_, Some _) =>
        Some (with_ad AdIdle
                (with_st (Alert "Failed to read issue info.  Are you sure it exists?"
                            (st x)) x))
      | (issue, None) => Some (with_ad (AdAdd issue (AiPresent PrRLock)) x)
      end
    end
  | AdAdd issue pc =>
    '(r, x) ← addItem_step issue pc x;
    match r with
    | Some pc => Some (with_ad (AdAdd issue pc) x)
    | None => Some (with_ad AdIdle x)
    end
  end.

Definition timer_step (e : LogEnv) (x : Sys) : option Sys :=
  match tm x with
  | TmIdle => None
  | TmClicked now =>
    let s := st x in
    if timerStarted s then
      Some (with_tm (TmWorkLog (selectedKey (menu s)) (startTime (timer s))
                       (stop now (timer s))) x)
    else if decide (selectedKey (menu s) = "") then
      Some (with_tm TmIdle (with_st (Alert "No Issue Selected" s) x))
    else
      Some (with_tm TmIdle
              (with_st (with_timer true {| startTime := now |} "Stop Timer" s) x))
  | TmWorkLog key started d =>
    let '(err, s) := addWorkLog key started d e (st x) in
    let s := match err with
             | Some msg => Alert msg s
             | None => s
             end in
    Some (with_tm TmIdle (with_st (with_timer false (timer s) "Start Timer" s) x))
  end.

(** What happens next: a click is taken by its loop, which must be
    waiting for it, or a loop takes a step, with the answers of the
    outside. *)
Inductive Label :=
| IssueClick (key : string) | ClickGo
| AddClick | AddGo (e : AddEnv)
| RefreshClick | RefreshGo (e : FetchEnv)
| TimerClick (now : Z) | TimerGo (e : LogEnv)
| QuitClick.

Definition next (x : Sys) (l : Label) : option Sys :=
  if quit x then None
  else
    match l with
    | IssueClick key =>
      match ck x with CkIdle => Some (with_ck (CkClear key) x) | _ => None end
    | ClickGo => click_step x
    | AddClick =>
      match ad x with AdIdle => Some (with_ad AdDialog x) | _ => None end
    | AddGo e => add_step e x
    | RefreshClick =>
      match rf x with RfIdle => Some (with_rf RfFetch x) | _ => None end
    | RefreshGo e => refresh_step e x
    | TimerClick now =>
      match tm x with TmIdle => Some (with_tm (TmClicked now) x) | _ => None end
    | TimerGo e => timer_step e x
    | QuitClick => Some (with_quit x)
    end.

(** A schedule: the steps taken one after the other, if each is
    enabled. *)
Fixpoint sched (x : Sys) (ls : list Label) : option Sys :=
  match ls with
  | [] => Some x
  | l :: ls => x' ← next x l; sched x' ls
  end.

(** The loops are started when the menu is built. *)
Definition started (e : FetchEnv) : Sys :=
  {| st := onReady e; mu := {| readers := 0; writer := false |};
     ck := CkIdle; ad := AdIdle; rf := RfIdle; tm := TmIdle; quit := false |}.

(** *** The lock of the menu *)

(** Whether a loop is between [RLock] and [RUnlock] (1 or 0), and
    whether it is between [Lock] and [Unlock]. *)
Definition rd_present (pc : PresentPc) : nat :=
  match pc with PrRLock => 0 | PrRead | PrRUnlock _ => 1 end.
Definition rd_addItem (pc : AddItemPc) : nat :=
  match pc with AiPresent pc => rd_present pc | _ => 0 end.
Definition wr_addItem (pc : AddItemPc) : nat :=
  match pc with AiWrite | AiUnlock => 1 | _ => 0 end.
Definition rd_ck (pc : ClickPc) : nat :=
  match pc with CkMark _ | CkRUnlock => 1 | _ => 0 end.
Definition rd_ad (pc : AddPc) : nat :=
  match pc with
  | AdPresent _ pc => rd_present pc
  | AdAdd _ pc => rd_addItem pc
  | _ => 0
  end.
Definition wr_ad (pc : AddPc) : nat :=
  match pc with AdAdd _ pc => wr_addItem pc | _ => 0 end.
Definition rd_rf (pc : RefreshPc) : nat :=
  match pc with RfAdd _ pc _ => rd_addItem pc | _ => 0 end.
Definition wr_rf (pc : RefreshPc) : nat :=
  match pc with RfAdd _ pc _ => wr_addItem pc | _ => 0 end.

(** The loops that read the menu under the lock, and those that write
    it under the lock. *)
Definition reading (x : Sys) : nat := rd_ck (ck x) + rd_ad (ad x) + rd_rf (rf x).
Definition writing (x : Sys) : nat := wr_ad (ad x) + wr_rf (rf x).

(** The lock counts them right, and a writer holds it alone. *)
Definition lock_inv (x : Sys) : Prop :=
  readers (mu x) = reading x /\
  Nat.b2n (writer (mu x)) = writing x /\
  (writer (mu x) = true -> readers (mu x) = 0).

(** The loops that are serving a click. *)
Definition busy_ck (pc : ClickPc) : nat := match pc with CkIdle => 0 | _ => 1 end.
Definition busy_ad (pc : AddPc) : nat := match pc with AdIdle => 0 | _ => 1 end.
Definition busy_rf (pc : RefreshPc) : nat := match pc with RfIdle => 0 | _ => 1 end.
Definition busy_tm (pc : TimerPc) : nat := match pc with TmIdle => 0 | _ => 1 end.
Definition in_flight (x : Sys) : nat :=
  busy_ck (ck x) + busy_ad (ad x) + busy_rf (rf x) + busy_tm (tm x).

(** The loop a click is for, read off the label. *)
Definition idle_for (l : Label) (x : Sys) : Prop :=
  match l with
  | IssueClick _ => ck x = CkIdle
  | AddClick => ad x = AdIdle
  | RefreshClick => rf x = RfIdle
  | TimerClick _ => tm x = TmIdle
  | _ => True
  end.

Lemma lock_inv_started e : lock_inv (started e).
Proof. repeat split. Qed.

Ltac case_step H :=
  repeat (match type of H with
          | context [match ?t with _ => _ end] => destruct t eqn:?
          end; cbn in H; try discriminate H).

Lemma refresh_next_lock issues :
  rd_rf (refresh_next issues) = 0 /\ wr_rf (refresh_next issues) = 0.
Proof. destruct issues; split; reflexivity. Qed.

Lemma next_lock_inv x l x' : lock_inv x -> next x l = Some x' -> lock_inv x'.
Proof.
  unfold lock_inv, reading, writing.
  destruct x as [s [n w] pck pad prf ptm q]. cbn.
  intros (Hr & Hw & Hwr) Hnext. unfold next in Hnext. cbn in Hnext.
  destruct q; [discriminate|].
  assert (Hwr' : w = false \/ n = 0) by (destruct w; auto). clear Hwr.
  destruct l; cbn in Hnext;
    unfold click_step, add_step, refresh_step, timer_step, addItem_step,
      isItemPresent_step, RLock, Lock in Hnext; cbn in Hnext;
    case_step Hnext; simplify_eq; cbn in *;
    repeat match goal with
           | |- context [refresh_next ?l] =>
             destruct (refresh_next_lock l) as [-> ->]
           end;
    repeat split; try lia; try (intros; discriminate);
    try (intros ->; cbn in *; lia);
    try (destruct w; cbn in *; lia).
Qed.

(** *** Clicks served one at a time

    When each click is served to its end before the next one comes, the
    program does what [Tracker.step] says: every run of [Tracker] is a
    schedule of the goroutines. *)

(** All loops are waiting and the lock is free. *)
Definition at_rest (s : State) : Sys :=
  {| st := s; mu := {| readers := 0; writer := false |};
     ck := CkIdle; ad := AdIdle; rf := RfIdle; tm := TmIdle; quit := false |}.

Local Arguments isItemPresent : simpl never.
Local Arguments addItem : simpl never.
Local Arguments getIssues : simpl never.
Local Arguments addWorkLog : simpl never.

Lemma sched_app ls1 : forall x ls2,
  sched x (ls1 ++ ls2) = x' ← sched x ls1; sched x' ls2.
Proof.
  induction ls1 as [|l ls1 IH]; intros x ls2; [reflexivity|].
  cbn. destruct (next x l) as [x'|]; [apply IH|reflexivity].
Qed.

Lemma check_in_two_writes key m : mark key (clear m) = check key m.
Proof. reflexivity. Qed.

Lemma click_served s key :
  sched (at_rest s) [IssueClick key; ClickGo; ClickGo; ClickGo; ClickGo] =
  Some (at_rest (step s (IssueClicked key))).
Proof. reflexivity. Qed.

Lemma timer_served s now e :
  exists ls, sched (at_rest s) ls = Some (at_rest (step s (TimerClicked now e))).
Proof.
  destruct (timerStarted s) eqn:Hrun.
  - exists [TimerClick now; TimerGo e; TimerGo e].
    cbn. unfold timer_step. cbn. rewrite Hrun. cbn.
    unfold timer_step, handleTimer. cbn. rewrite Hrun.
    destruct (addWorkLog _ _ _ e s) as [[msg|] s']; reflexivity.
  - exists [TimerClick now; TimerGo e].
    cbn. unfold timer_step, handleTimer. cbn. rewrite Hrun.
    destruct (decide (selectedKey (menu s) = "")); reflexivity.
Qed.

(** [addItem] inside [refresh], from its first step to its return. *)
Lemma addItem_served_in_refresh s issue rest :
  exists ls,
    sched (with_rf (RfAdd issue (AiPresent PrRLock) rest) (at_rest s)) ls =
    Some (with_rf (refresh_next rest) (at_rest (with_menu (addItem issue) s))).
Proof.
  pose (go := RefreshGo {| fe_login := ok; fe_list := ok; fe_decoded := ([], None) |}).
  destruct (isItemPresent (menu s) (Key issue)) eqn:Hp.
  - exists [go; go; go]. destruct s as [m ? ? ? ? ? ?]. cbn in Hp |- *.
    unfold with_menu, addItem. cbn. rewrite Hp. reflexivity.
  - exists [go; go; go; go; go; go]. destruct s as [m ? ? ? ? ? ?]. cbn in Hp |- *.
    unfold with_menu, addItem. cbn. rewrite Hp. reflexivity.
Qed.

Lemma addItems_served_in_refresh issues : forall s,
  exists ls,
    sched (with_rf (refresh_next issues) (at_rest s)) ls =
    Some (at_rest (with_menu (fun m => addItems m issues) s)).
Proof.
  induction issues as [|issue issues IH]; intros s.
  - exists []. by destruct s as [[] ? ? ? ? ? ?].
  - destruct (addItem_served_in_refresh s issue issues) as [ls1 H1].
    destruct (IH (with_menu (addItem issue) s)) as [ls2 H2].
    exists (ls1 ++ ls2). cbn [refresh_next]. rewrite sched_app, H1. cbn.
    exact H2.
Qed.

Lemma refresh_served s e :
  exists ls, sched (at_rest s) ls = Some (at_rest (step s (RefreshClicked e))).
Proof.
  cbn [step]. unfold refresh.
  destruct (getIssues e s) as [[issues err] s1] eqn:Hget.
  destruct (addItems_served_in_refresh issues
              (match err with Some msg => log_Print msg s1 | None => s1 end))
    as [ls Hls].
  exists ([RefreshClick; RefreshGo e] ++ ls). rewrite sched_app.
  cbn. unfold refresh_step. cbn. rewrite Hget. cbn. exact Hls.
Qed.

(** [addItem] inside [addIssue]. *)
Lemma addItem_served_in_addIssue s issue :
  exists ls,
    sched (with_ad (AdAdd issue (AiPresent PrRLock)) (at_rest s)) ls =
    Some (at_rest (with_menu (addItem issue) s)).
Proof.
  pose (go := AddGo {| ae_dialog := pressed "OK" ""; ae_login := ok; ae_view := ok;
                       ae_decoded := (issue, None) |}).
  destruct (isItemPresent (menu s) (Key issue)) eqn:Hp.
  - exists [go; go; go]. destruct s as [m ? ? ? ? ? ?]. cbn in Hp |- *.
    unfold with_menu, addItem. cbn. rewrite Hp. reflexivity.
  - exists [go; go; go; go; go; go]. destruct s as [m ? ? ? ? ? ?]. cbn in Hp |- *.
    unfold with_menu, addItem. cbn. rewrite Hp. reflexivity.
Qed.

Lemma add_served s e :
  exists ls, sched (at_rest s) ls = Some (at_rest (step s (AddClicked e))).
Proof.
  cbn [step]. unfold addIssue.
  destruct (dlg_err (ae_dialog e)) as [err|] eqn:Hdlg.
  { exists [AddClick; AddGo e]. cbn. unfold add_step. cbn. by rewrite Hdlg. }
  destruct (decide (Clicked (ae_dialog e) ≠ "OK")) as [Hbtn|Hbtn].
  { exists [AddClick; AddGo e]. cbn. unfold add_step. cbn. rewrite Hdlg.
    by destruct (decide (Clicked (ae_dialog e) ≠ "OK")). }
  assert (Hasked :
    sched (at_rest s) [AddClick; AddGo e; AddGo e; AddGo e; AddGo e] =
    if isItemPresent (menu s) (Text (ae_dialog e))
    then Some (at_rest (Alert "Issue already there!" s))
    else Some (with_ad (AdLogin (Text (ae_dialog e))) (at_rest s))).
  { cbn. unfold add_step. cbn. rewrite Hdlg.
    destruct (decide (Clicked (ae_dialog e) ≠ "OK")); [contradiction|]. cbn.
    unfold add_step. cbn.
    destruct (isItemPresent (menu s) (Text (ae_dialog e))); reflexivity. }
  destruct (isItemPresent (menu s) (Text (ae_dialog e))); [eauto|].
  destruct (cmd_err (ae_login e)) as [err|] eqn:Hlogin.
  { exists ([AddClick; AddGo e; AddGo e; AddGo e; AddGo e] ++ [AddGo e]).
    rewrite sched_app, Hasked. cbn. unfold add_step. cbn. by rewrite Hlogin. }
  destruct (cmd_err (ae_view e)) as [err|] eqn:Hview.
  { exists ([AddClick; AddGo e; AddGo e; AddGo e; AddGo e] ++ [AddGo e; AddGo e]).
    rewrite sched_app, Hasked. cbn. unfold add_step. cbn. rewrite Hlogin. cbn.
    unfold add_step. cbn. by rewrite Hview. }
  destruct (ae_decoded e) as [issue [jerr|]] eqn:Hjson.
  { exists ([AddClick; AddGo e; AddGo e; AddGo e; AddGo e] ++ [AddGo e; AddGo e]).
    rewrite sched_app, Hasked. cbn. unfold add_step. cbn. rewrite Hlogin. cbn.
    unfold add_step. cbn. by rewrite Hview, Hjson. }
  destruct (addItem_served_in_addIssue
              (exec (JiraView (Text (ae_dialog e))) (exec JiraLogin s)) issue)
    as [ls Hls].
  exists (([AddClick; AddGo e; AddGo e; AddGo e; AddGo e] ++ [AddGo e; AddGo e]) ++ ls).
  rewrite sched_app, sched_app, Hasked. cbn. unfold add_step. cbn. rewrite Hlogin. cbn.
  unfold add_step. cbn. rewrite Hview, Hjson. cbn. exact Hls.
Qed.

Lemma step_served s ev :
  exists ls, sched (at_rest s) ls = Some (at_rest (step s ev)).
Proof.
  destruct ev as [key|e|e|now e].
  - eexists. apply click_served.
  - apply add_served.
  - apply refresh_served.
  - apply timer_served.
Qed.

(** Every run of [Tracker] is a schedule of the goroutines. *)
Lemma run_served evs : forall s,
  exists ls, sched (at_rest s) ls = Some (at_rest (run s evs)).
Proof.
  induction evs as [|ev evs IH]; intros s.
  - exists []. reflexivity.
  - destruct (step_served s ev) as [ls1 H1].
    destruct (IH (step s ev)) as [ls2 H2].
    exists (ls1 ++ ls2). rewrite sched_app, H1. exact H2.
Qed.

(** *** What the loops guarantee, and what they do not *)

Lemma sched_lock_inv ls : forall x x',
  lock_inv x -> sched x ls = Some x' -> lock_inv x'.
Proof.
  induction ls as [|l ls IH]; intros x x' Hinv Hs; cbn in Hs.
  - by simplify_eq.
  - destruct (next x l) as [x1|] eqn:Hnext; [|discriminate].
    eapply IH; [|exact Hs]. by eapply next_lock_inv.
Qed.

Lemma next_idle_for x l x' : next x l = Some x' -> idle_for l x.
Proof.
  unfold next. destruct (quit x); [discriminate|].
  destruct l; cbn; try done.
  - destruct (ck x); done.
  - destruct (ad x); done.
  - destruct (rf x); done.
  - destruct (tm x); done.
Qed.

(** C3, as the program has it.  There is no single loop: each kind of
    click has a loop of its own, and a loop takes its next click only
    when it is done with the one before.  The loops run side by side;
    what orders them is the lock of the menu.  In every state the
    goroutines reach, the lock counts the loops that read the registry
    and the loop that writes it, at most one loop is writing (a store of
    [addItem]), and while it is, no loop is reading.  Serving the clicks
    one at a time, each to its end, is one of the schedules. *)
Theorem loops_ordered_by_the_lock (e : FetchEnv) :
  (forall ls x,
     sched (started e) ls = Some x ->
     (readers (mu x) = reading x /\ Nat.b2n (writer (mu x)) = writing x) /\
     writing x <= 1 /\
     (writing x = 1 -> reading x = 0) /\
     (forall l x', next x l = Some x' -> idle_for l x)) /\
  (forall evs,
     exists ls, sched (started e) ls = Some (at_rest (run (onReady e) evs))).
Proof.
  split.
  - intros ls x Hs.
    destruct (sched_lock_inv ls _ _ (lock_inv_started e) Hs) as (Hr & Hw & Hwr).
    split; [by split|]. split; [|split].
    + rewrite <- Hw. by destruct (writer (mu x)); cbn; lia.
    + intros H1. rewrite <- Hr. apply Hwr.
      rewrite <- Hw in H1. by destruct (writer (mu x)).
    + intros l x'. apply next_idle_for.
  - intros evs. apply (run_served evs (onReady e)).
Qed.

(** The state after a schedule (the start when it is not enabled). *)
Definition after (e : FetchEnv) (ls : list Label) : Sys :=
  default (started e) (sched (started e) ls).

(** One step of [refresh], whatever the answers (they are read in
    [getIssues] only). *)
Definition refreshing : Label := RefreshGo two_issues.

(** JIRA lists nothing. *)
Definition nothing_listed : FetchEnv :=
  {| fe_login := ok; fe_list := ok; fe_decoded := ([], None) |}.

(** Nothing is listed at the start; then a refresh finds two issues and
    is about to store the first. *)
Definition storing_PROJ_1 : list Label :=
  [RefreshClick; refreshing; refreshing; refreshing; refreshing; refreshing].

Lemma refresh_stores_alone :
  rf (after nothing_listed storing_PROJ_1) =
    RfAdd {| Key := "PROJ-1"; Summary := "Fix bug" |} AiWrite
      [ {| Key := "PROJ-2"; Summary := "Write docs" |} ] /\
  reading (after nothing_listed storing_PROJ_1) = 0.
Proof.
  split; [vm_compute; reflexivity|].
  assert (Hs : sched (started nothing_listed) storing_PROJ_1 =
               Some (after nothing_listed storing_PROJ_1))
    by (vm_compute; reflexivity).
  destruct (loops_ordered_by_the_lock nothing_listed) as [Hlock _].
  destruct (Hlock storing_PROJ_1 _ Hs) as (_ & _ & Halone & _).
  apply Halone. vm_compute. reflexivity.
Defined.

(** PROJ-1 is selected and the timer runs; then a refresh is clicked
    and waits in [getIssues]. *)
Definition refresh_waiting : list Label :=
  [IssueClick "PROJ-1"; ClickGo; ClickGo; ClickGo; ClickGo;
   TimerClick 0; TimerGo (all_well "");
   RefreshClick].

(** While it waits, PROJ-2 is clicked, and [check] goes as far as the
    marking of the items. *)
Definition PROJ_2_clicked_meanwhile : list Label :=
  refresh_waiting ++ [IssueClick "PROJ-2"; ClickGo; ClickGo; ClickGo].

(** C3 as the specification has it fails: the refresh is still being
    served when the click on PROJ-2 is taken and served.  Two clicks are
    served at once, and the second changes the selection before the
    first is done. *)
Lemma two_clicks_served_at_once :
  sched (started two_issues) PROJ_2_clicked_meanwhile =
    Some (after two_issues PROJ_2_clicked_meanwhile) /\
  rf (after two_issues refresh_waiting) = RfFetch /\
  selectedKey (menu (st (after two_issues refresh_waiting))) = "PROJ-1" /\
  rf (after two_issues PROJ_2_clicked_meanwhile) = RfFetch /\
  ck (after two_issues PROJ_2_clicked_meanwhile) = CkRUnlock /\
  selectedKey (menu (st (after two_issues PROJ_2_clicked_meanwhile))) = "PROJ-2" /\
  in_flight (after two_issues PROJ_2_clicked_meanwhile) = 2.
Proof. vm_compute. repeat split. Qed.

(** The lock does not make [addItem] one step: the lookup and the store
    are two critical sections.  A refresh and an added issue that bring
    the same new key both find it missing, and the second store replaces
    the item of the first. *)
Definition found_by_list : FetchEnv :=
  {| fe_login := ok; fe_list := ok;
     fe_decoded := ([ {| Key := "PROJ-3"; Summary := "from list" |} ], None) |}.
Definition found_by_view : AddEnv :=
  {| ae_dialog := pressed "OK" "PROJ-3"; ae_login := ok; ae_view := ok;
     ae_decoded := ({| Key := "PROJ-3"; Summary := "from view" |}, None) |}.

Definition racing_adds : list Label :=
  [RefreshClick; RefreshGo found_by_list;
   AddClick; AddGo found_by_view; AddGo found_by_view; AddGo found_by_view;
   AddGo found_by_view; AddGo found_by_view; AddGo found_by_view;
   RefreshGo found_by_list; RefreshGo found_by_list; RefreshGo found_by_list;
   AddGo found_by_view; AddGo found_by_view; AddGo found_by_view;
   RefreshGo found_by_list; RefreshGo found_by_list; RefreshGo found_by_list].

Lemma racing_adds_overwrite :
  tooltip <$> issueItems (menu (st (after two_issues racing_adds))) !! "PROJ-3" =
    Some "from list" /\
  sched (after two_issues racing_adds)
    [AddGo found_by_view; AddGo found_by_view; AddGo found_by_view] =
  Some (after two_issues
          (racing_adds ++
           [AddGo found_by_view; AddGo found_by_view; AddGo found_by_view])) /\
  tooltip <$> issueItems (menu (st (after two_issues
          (racing_adds ++
           [AddGo found_by_view; AddGo found_by_view; AddGo found_by_view]))))
    !! "PROJ-3" = Some "from view".
Proof. vm_compute. repeat split. Qed.

(** C5.  The first write does not always win.  [addItem] tests the key
    under the read lock, gives the lock back, and stores under the
    write lock.  A refresh that lists PROJ-3 and an add of PROJ-3 both
    find the key missing; the refresh stores its item first, and the
    add, which is past its test, replaces it: the entry that was
    present is overwritten.  The registry has three entries before and
    after. *)
Lemma first_write_is_overwritten :
  sched (started two_issues) racing_adds = Some (after two_issues racing_adds) /\
  issueItems (menu (st (after two_issues racing_adds))) !! "PROJ-3" =
    Some {| title := "PROJ-3 - from list"; tooltip := "from list"; checked := false |} /\
  ad (after two_issues racing_adds) =
    AdAdd {| Key := "PROJ-3"; Summary := "from view" |} AiLock /\
  rf (after two_issues racing_adds) = RfIdle /\
  sched (after two_issues racing_adds)
    [AddGo found_by_view; AddGo found_by_view; AddGo found_by_view] =
  Some (after two_issues
          (racing_adds ++
           [AddGo found_by_view; AddGo found_by_view; AddGo found_by_view])) /\
  issueItems (menu (st (after two_issues
          (racing_adds ++
           [AddGo found_by_view; AddGo found_by_view; AddGo found_by_view]))))
    !! "PROJ-3" =
    Some {| title := "PROJ-3 - from view"; tooltip := "from view"; checked := false |} /\
  size (issueItems (menu (st (after two_issues racing_adds)))) = 3 /\
  size (issueItems (menu (st (after two_issues
          (racing_adds ++
           [AddGo found_by_view; AddGo found_by_view; AddGo found_by_view]))))) = 3.
Proof. vm_compute. repeat split. Qed.

(** *** The selection, at every step of the goroutines *)

Lemma selection_valid_store issue m :
  selection_valid m -> selection_valid (store issue m).
Proof.
  intros [Hsel|[item Hitem]]; [by left|]. right. cbn.
  destruct (decide (Key issue = selectedKey m)) as [->|Hne].
  - rewrite lookup_insert_eq. eauto.
  - rewrite lookup_insert_ne by done. eauto.
Qed.

Lemma selection_valid_clear m : selection_valid (clear m).
Proof. by left. Qed.

Lemma selection_valid_mark key m :
  selection_valid m -> selection_valid (mark key m).
Proof.
  intros Hm. unfold mark, selection_valid. rewrite lookup_fmap.
  destruct (issueItems m !! key) as [item|] eqn:Hkey; cbn.
  - right. rewrite lookup_insert_eq. eauto.
  - destruct Hm as [Hsel|[item Hitem]]; [by left|].
    right. rewrite lookup_fmap, Hitem. cbn. eauto.
Qed.

(** What one step does to the menu: nothing, or one of the writes of
    [addItem] and [check]. *)
Lemma next_menu x l x' :
  next x l = Some x' ->
  menu (st x') = menu (st x) \/
  (exists issue, menu (st x') = store issue (menu (st x))) \/
  menu (st x') = clear (menu (st x)) \/
  (exists key, menu (st x') = mark key (menu (st x))).
Proof.
  destruct x as [s [n w] pck pad prf ptm q].
  intros Hnext. unfold next in Hnext. cbn in Hnext.
  destruct q; [discriminate|].
  destruct l; cbn in Hnext;
    unfold click_step, add_step, refresh_step, timer_step, addItem_step,
      isItemPresent_step, RLock, Lock in Hnext; cbn in Hnext;
    case_step Hnext; simplify_eq; cbn;
    repeat match goal with
           | H : getIssues ?e ?s = (_, ?s0) |- _ =>
             let Hm := fresh "Hm" in
             pose proof (getIssues_menu e s) as Hm; rewrite H in Hm;
             cbn in Hm; clear H
           | H : addWorkLog ?k ?t ?d ?e ?s = (_, ?s0) |- _ =>
             let Hm := fresh "Hm" in
             pose proof (addWorkLog_menu k t d e s) as Hm; rewrite H in Hm;
             cbn in Hm; clear H
           end;
    eauto.
Qed.

Lemma next_selection_valid x l x' :
  selection_valid (menu (st x)) -> next x l = Some x' ->
  selection_valid (menu (st x')).
Proof.
  intros Hx Hnext.
  destruct (next_menu x l x' Hnext) as [->|[[issue ->]|[->|[key ->]]]].
  - exact Hx.
  - by apply selection_valid_store.
  - apply selection_valid_clear.
  - by apply selection_valid_mark.
Qed.

Lemma sched_selection_valid ls : forall x x',
  selection_valid (menu (st x)) -> sched x ls = Some x' ->
  selection_valid (menu (st x')).
Proof.
  induction ls as [|l ls IH]; intros x x' Hx Hs; cbn in Hs.
  - by simplify_eq.
  - destruct (next x l) as [x1|] eqn:Hnext; [|discriminate].
    eapply IH; [|exact Hs]. by eapply next_selection_valid.
Qed.

(** C7.  The selection is one key, [selectedKey].  At every step of the
    goroutines, whatever the clicks, their order and the answers of the
    outside, it is empty or the key of an entry of the registry.  After
    every click served to its end, no menu item but that of the
    selection is checked.  When a click makes a key the selection, that
    key was in the registry before the click. *)
Theorem selection_invariant (e : FetchEnv) :
  (forall ls x,
     sched (started e) ls = Some x -> selection_valid (menu (st x))) /\
  (forall evs,
     selection_valid (menu (run (onReady e) evs)) /\
     checked_is_selected (menu (run (onReady e) evs))) /\
  (forall s ev,
     selectedKey (menu (step s ev)) <> selectedKey (menu s) ->
     selectedKey (menu (step s ev)) <> "" ->
     ev = IssueClicked (selectedKey (menu (step s ev))) /\
     is_Some (issueItems (menu s) !! selectedKey (menu (step s ev)))).
Proof.
  split; [|split].
  - intros ls x Hs. eapply sched_selection_valid; [|exact Hs].
    apply (selection_invariant_of_runs e []).
  - intros evs. destruct (selection_invariant_of_runs e evs) as (H1 & H2 & _).
    by split.
  - apply (selection_invariant_of_runs e []).
Qed.

(** The selection is valid also in the middle of [check], while a
    refresh waits. *)
Lemma selection_while_refresh_waits :
  selection_valid (menu (st (after two_issues PROJ_2_clicked_meanwhile))).
Proof.
  destruct (selection_invariant two_issues) as [Hsteps _].
  apply (Hsteps PROJ_2_clicked_meanwhile). vm_compute. reflexivity.
Defined.

End Goroutines.

(** ** More on the menu: what [addItem], [check], [refresh] and
    [addIssue] keep *)
Module Menu.
Import Duration Tracker.

(** Two menus with the same entries and the same selection are equal. *)
Lemma menu_eq (a b : JiraMenu) :
  (forall k, issueItems a !! k = issueItems b !! k) ->
  selectedKey a = selectedKey b -> a = b.
Proof.
  destruct a as [ia sa], b as [ib sb]. cbn. intros Hi ->.
  f_equal. by apply map_eq.
Qed.

(** *** Clicks on issues *)

(** X2.  A click on an issue of the registry makes it the selection, checks
    its item and no other, and changes no key, title or tooltip. *)
Theorem click_checks_exactly_one (key : string) (m : JiraMenu) (item0 : MenuItem) :
  issueItems m !! key = Some item0 ->
  selectedKey (check key m) = key /\
  dom (issueItems (check key m)) = dom (issueItems m) /\
  (forall k item,
     issueItems (check key m) !! k = Some item ->
     (checked item = true <-> k = key) /\
     exists old, issueItems m !! k = Some old /\
                 title item = title old /\ tooltip item = tooltip old).
Proof.
  intros Hkey. split; [|split].
  - rewrite check_selectedKey. unfold isItemPresent. by rewrite Hkey.
  - apply set_eq. intros k. rewrite !elem_of_dom, check_lookup.
    destruct (issueItems m !! k); cbn; split; intros [? ?]; by eauto.
  - intros k item. rewrite check_lookup.
    destruct (issueItems m !! k) as [old|] eqn:Hk; [|discriminate]. cbn.
    destruct (decide (k = key)) as [->|Hne]; intros [= <-]; cbn.
    + split; [by split|]. exists old. by repeat split.
    + split; [split; [discriminate|contradiction]|]. exists old. by repeat split.
Qed.

Lemma click_on_PROJ_2_checks_it :
  selectedKey (check "PROJ-2" (menu (onReady two_issues))) = "PROJ-2".
Proof.
  destruct (click_checks_exactly_one "PROJ-2" (menu (onReady two_issues))
              {| title := "PROJ-2 - Write docs"; tooltip := "Write docs";
                 checked := false |} eq_refl) as [Hsel _].
  exact Hsel.
Defined.

(** X3.  The last click wins: the selection and the check marks after two
    clicks are those after the second alone, whatever the first was
    on, in the registry or not. *)
Theorem last_click_wins (k1 k2 : string) (m : JiraMenu) :
  check k2 (check k1 m) = check k2 m.
Proof.
  apply menu_eq.
  - intros k. rewrite !check_lookup.
    destruct (issueItems m !! k) as [item|]; [|reflexivity]. cbn.
    destruct (decide (k = k1)), (decide (k = k2)); reflexivity.
  - rewrite !check_selectedKey. unfold isItemPresent.
    rewrite check_lookup. by destruct (issueItems m !! k2).
Qed.

(** *** Refreshing *)

(** What [getIssues] returns depends on the answers only. *)
Lemma getIssues_result e s s' : fst (getIssues e s) = fst (getIssues e s').
Proof.
  unfold getIssues.
  destruct (cmd_err (fe_login e)); [reflexivity|].
  destruct (cmd_err (fe_list e)); reflexivity.
Qed.

Lemma addItems_twice issues m :
  addItems (addItems m issues) issues = addItems m issues.
Proof.
  apply menu_eq.
  - intros k. rewrite (addItems_lookup issues (addItems m issues)).
    rewrite (addItems_lookup issues m).
    destruct (issueItems m !! k); [reflexivity|].
    by destruct (head (filter (fun issue => Key issue = k) issues)).
  - by rewrite !addItems_selectedKey.
Qed.

(** X4.  [refresh] is idempotent on the menu: when JIRA answers the same
    twice, the second refresh changes nothing in the registry or the
    selection (the commands are run and a failure is logged again). *)
Theorem refresh_twice_is_refresh_once (e : FetchEnv) (s : State) :
  menu (refresh e (refresh e s)) = menu (refresh e s).
Proof.
  rewrite (refresh_menu e (refresh e s)), !refresh_menu.
  rewrite (getIssues_result e (refresh e s) s).
  apply addItems_twice.
Qed.

Lemma head_filter_unique (k : string) (l l' : list Issue) :
  NoDup (Key <$> l) -> l ≡ₚ l' ->
  head (filter (fun issue => Key issue = k) l) =
  head (filter (fun issue => Key issue = k) l').
Proof.
  intros Hnd Hp.
  assert (Hlen : forall l0 : list Issue, NoDup (Key <$> l0) ->
            length (filter (fun issue => Key issue = k) l0) <= 1).
  { induction l0 as [|x l0 IH]; intros Hnd0; [cbn; lia|].
    rewrite fmap_cons in Hnd0. apply NoDup_cons in Hnd0 as [Hx Hnd0].
    rewrite filter_cons. destruct (decide (Key x = k)) as [Hk|Hk]; [|by apply IH].
    assert (Hnil : filter (fun issue => Key issue = k) l0 = []).
    { destruct (filter (fun issue => Key issue = k) l0) as [|y ys] eqn:Hf; [done|].
      exfalso. apply Hx.
      assert (Hy : y ∈ filter (fun issue => Key issue = k) l0)
        by (rewrite Hf; left).
      apply list_elem_of_filter in Hy as [Hyk Hy].
      apply list_elem_of_fmap. exists y. split; [congruence|exact Hy]. }
    rewrite Hnil. cbn. lia. }
  assert (Hnd' : NoDup (Key <$> l')) by (by rewrite <- Hp).
  assert (Hpf : filter (fun issue => Key issue = k) l ≡ₚ
                filter (fun issue => Key issue = k) l') by (by rewrite Hp).
  pose proof (Hlen l Hnd) as H1. pose proof (Hlen l' Hnd') as H2.
  destruct (filter (fun issue => Key issue = k) l) as [|x [|? ?]];
    destruct (filter (fun issue => Key issue = k) l') as [|y [|? ?]];
    cbn in *; try lia.
  - reflexivity.
  - by apply Permutation_nil_cons in Hpf.
  - symmetry in Hpf. by apply Permutation_nil_cons in Hpf.
  - apply Permutation_singleton_inj in Hpf. by subst.
Qed.

(** X5.  When the issues have distinct keys, the order in which they are
    listed does not matter for the registry. *)
Theorem listing_order_is_irrelevant (l l' : list Issue) (m : JiraMenu) :
  NoDup (Key <$> l) -> l ≡ₚ l' -> addItems m l = addItems m l'.
Proof.
  intros Hnd Hp. apply menu_eq.
  - intros k. rewrite !addItems_lookup.
    destruct (issueItems m !! k); [reflexivity|].
    by rewrite (head_filter_unique k l l' Hnd Hp).
  - by rewrite !addItems_selectedKey.
Qed.

Lemma two_issues_in_either_order :
  addItems emptyMenu [ {| Key := "PROJ-1"; Summary := "Fix bug" |};
                       {| Key := "PROJ-2"; Summary := "Write docs" |} ] =
  addItems emptyMenu [ {| Key := "PROJ-2"; Summary := "Write docs" |};
                       {| Key := "PROJ-1"; Summary := "Fix bug" |} ].
Proof.
  apply listing_order_is_irrelevant.
  - cbn. repeat constructor; set_solver.
  - apply perm_swap.
Defined.

Lemma getIssues_frame e s :
  timerTitle (snd (getIssues e s)) = timerTitle s.
Proof.
  unfold getIssues.
  destruct (cmd_err (fe_login e)); [reflexivity|].
  destruct (cmd_err (fe_list e)); reflexivity.
Qed.

(** X6.  [refresh] only adds: it shows nothing and leaves the timer
    and the selection alone; no key leaves the registry; and an entry
    under a key that was not there before is an unchecked item made
    from one of the issues fetched. *)
Theorem refresh_only_adds (e : FetchEnv) (s : State) :
  alerts (refresh e s) = alerts s /\
  timerStarted (refresh e s) = timerStarted s /\
  timer (refresh e s) = timer s /\
  timerTitle (refresh e s) = timerTitle s /\
  selectedKey (menu (refresh e s)) = selectedKey (menu s) /\
  (forall k,
     is_Some (issueItems (menu s) !! k) ->
     is_Some (issueItems (menu (refresh e s)) !! k)) /\
  (forall k item,
     issueItems (menu s) !! k = None ->
     issueItems (menu (refresh e s)) !! k = Some item ->
     checked item = false /\
     exists issue, issue ∈ fst (fst (getIssues e s)) /\ Key issue = k /\
                   item = newItem issue).
Proof.
  split; [apply refresh_alerts|].
  destruct (step_timer s (RefreshClicked e) eq_refl) as [Hstarted Htimer].
  split; [exact Hstarted|]. split; [exact Htimer|].
  split.
  { unfold refresh. pose proof (getIssues_frame e s) as Ht.
    destruct (getIssues e s) as [[issues [msg|]] s1]; exact Ht. }
  rewrite refresh_menu. split; [apply addItems_selectedKey|]. split.
  - intros k [item Hk]. rewrite addItems_lookup, Hk. eauto.
  - intros k item Hk. rewrite addItems_lookup, Hk.
    destruct (head (filter (fun issue => Key issue = k) (fst (fst (getIssues e s)))))
      as [issue|] eqn:Hhead; [|discriminate].
    intros [= <-]. split; [reflexivity|]. exists issue.
    apply head_Some_elem_of, list_elem_of_filter in Hhead as [Hkey Hin].
    by repeat split.
Qed.

(** *** Adding an issue *)

(** The answers with which [addIssue] gets as far as [addItem]. *)
Definition found (e : AddEnv) (issue : Issue) : Prop :=
  confirmed (ae_dialog e) /\ succeeded (ae_login e) /\ succeeded (ae_view e) /\
  ae_decoded e = (issue, None).

Lemma addIssue_found e issue s :
  found e issue -> isItemPresent (menu s) (Text (ae_dialog e)) = false ->
  addIssue e s =
  with_menu (addItem issue)
    (exec (JiraView (Text (ae_dialog e))) (exec JiraLogin s)).
Proof.
  intros ([Hdlg Hbtn] & Hlogin & Hview & Hjson) Habsent. unfold addIssue.
  rewrite Hdlg, Habsent, Hlogin, Hview, Hjson.
  by destruct (decide (Clicked (ae_dialog e) ≠ "OK")).
Qed.

Lemma addIssue_present e s :
  confirmed (ae_dialog e) -> isItemPresent (menu s) (Text (ae_dialog e)) = true ->
  addIssue e s = Alert "Issue already there!" s.
Proof.
  intros [Hdlg Hbtn] Hpresent. unfold addIssue. rewrite Hdlg, Hpresent.
  by destruct (decide (Clicked (ae_dialog e) ≠ "OK")).
Qed.

(** X7.  An issue added by its key is in the registry afterwards, one entry
    more; asking for the same key again is answered "Issue already
    there!", with no command run and nothing else changed. *)
Theorem second_add_is_refused (e1 e2 : AddEnv) (issue : Issue) (s : State) :
  found e1 issue ->
  isItemPresent (menu s) (Text (ae_dialog e1)) = false ->
  Key issue = Text (ae_dialog e1) ->
  confirmed (ae_dialog e2) ->
  Text (ae_dialog e2) = Text (ae_dialog e1) ->
  issueItems (menu (addIssue e1 s)) !! Key issue = Some (newItem issue) /\
  size (issueItems (menu (addIssue e1 s))) = S (size (issueItems (menu s))) /\
  addIssue e2 (addIssue e1 s) = Alert "Issue already there!" (addIssue e1 s).
Proof.
  intros Hfound Habsent Hkey Hdlg2 Htext.
  rewrite (addIssue_found _ _ _ Hfound Habsent).
  assert (Hnone : issueItems (menu s) !! Key issue = None).
  { rewrite Hkey. by apply isItemPresent_false. }
  assert (Hnew : issueItems (addItem issue (menu s)) !! Key issue = Some (newItem issue)).
  { rewrite addItem_lookup, Hnone. by destruct (decide (Key issue = Key issue)). }
  split; [exact Hnew|]. split.
  - cbn. unfold addItem. rewrite Hkey, Habsent. cbn.
    apply map_size_insert_None. by rewrite <- Hkey.
  - apply addIssue_present; [exact Hdlg2|].
    rewrite Htext, <- Hkey. apply isItemPresent_true. cbn. rewrite Hnew. eauto.
Qed.

(** PROJ-1 asked for and found. *)
Definition PROJ_1_found : AddEnv :=
  {| ae_dialog := pressed "OK" "PROJ-1"; ae_login := ok; ae_view := ok;
     ae_decoded := ({| Key := "PROJ-1"; Summary := "Fix bug" |}, None) |}.

Lemma PROJ_1_added_then_refused :
  size (issueItems (menu (addIssue PROJ_1_found initial))) = 1 /\
  alerts (addIssue PROJ_1_found (addIssue PROJ_1_found initial)) =
    ["Issue already there!"].
Proof.
  destruct (second_add_is_refused PROJ_1_found PROJ_1_found
              {| Key := "PROJ-1"; Summary := "Fix bug" |} initial)
    as (_ & Hsize & Hsecond).
  - repeat split.
  - reflexivity.
  - reflexivity.
  - split; reflexivity.
  - reflexivity.
  - split; [exact Hsize|]. rewrite Hsecond. reflexivity.
Defined.

(** X8.  The entry is made under the key JIRA returns, not under the text
    typed.  When the two differ, the text typed is still unknown to the
    registry afterwards: asking for it again runs the login and the
    view again, adds nothing and shows nothing, not even "Issue already
    there!". *)
Theorem alias_is_added_under_its_own_key (e : AddEnv) (issue : Issue) (s : State) :
  found e issue ->
  isItemPresent (menu s) (Text (ae_dialog e)) = false ->
  Key issue <> Text (ae_dialog e) ->
  isItemPresent (menu (addIssue e s)) (Key issue) = true /\
  isItemPresent (menu (addIssue e s)) (Text (ae_dialog e)) = false /\
  menu (addIssue e (addIssue e s)) = menu (addIssue e s) /\
  alerts (addIssue e (addIssue e s)) = alerts s /\
  execs (addIssue e (addIssue e s)) =
    execs s ++ [JiraLogin; JiraView (Text (ae_dialog e));
                JiraLogin; JiraView (Text (ae_dialog e))].
Proof.
  intros Hfound Habsent Hne.
  assert (H1 : isItemPresent (menu (addIssue e s)) (Key issue) = true).
  { rewrite (addIssue_found _ _ _ Hfound Habsent). cbn.
    apply isItemPresent_true. rewrite addItem_lookup.
    destruct (issueItems (menu s) !! Key issue); [eauto|].
    destruct (decide (Key issue = Key issue)); [eauto|contradiction]. }
  assert (H2 : isItemPresent (menu (addIssue e s)) (Text (ae_dialog e)) = false).
  { rewrite (addIssue_found _ _ _ Hfound Habsent). cbn.
    apply isItemPresent_false. rewrite addItem_lookup.
    apply isItemPresent_false in Habsent. rewrite Habsent.
    by destruct (decide (Key issue = Text (ae_dialog e))). }
  split; [exact H1|]. split; [exact H2|].
  rewrite (addIssue_found _ _ (addIssue e s) Hfound H2).
  split; [|split].
  - cbn. by apply addItem_present.
  - by rewrite (addIssue_found _ _ _ Hfound Habsent).
  - rewrite (addIssue_found _ _ _ Hfound Habsent). cbn.
    rewrite <- !app_assoc. reflexivity.
Qed.

(** The user types proj-1 and JIRA answers with PROJ-1. *)
Definition proj_1_found : AddEnv :=
  {| ae_dialog := pressed "OK" "proj-1"; ae_login := ok; ae_view := ok;
     ae_decoded := ({| Key := "PROJ-1"; Summary := "Fix bug" |}, None) |}.

Lemma proj_1_asked_twice :
  alerts (addIssue proj_1_found (addIssue proj_1_found initial)) = [] /\
  execs (addIssue proj_1_found (addIssue proj_1_found initial)) =
    [JiraLogin; JiraView "proj-1"; JiraLogin; JiraView "proj-1"].
Proof.
  destruct (alias_is_added_under_its_own_key proj_1_found
              {| Key := "PROJ-1"; Summary := "Fix bug" |} initial)
    as (_ & _ & _ & Halerts & Hexecs).
  - repeat split.
  - reflexivity.
  - discriminate.
  - split; [exact Halerts|exact Hexecs].
Defined.

(** X9.  [addIssue] never changes the selection, and it changes the
    registry only with the issue JIRA found for a text the registry did
    not have when it was tested: the item of that issue is stored under
    the key of that issue.  In every other case (dialog closed or
    failed, text already there, login or view failed, answer not
    decoded) the menu is left as it is. *)
Theorem addIssue_adds_only_what_was_found (e : AddEnv) (s : State) :
  selectedKey (menu (addIssue e s)) = selectedKey (menu s) /\
  (menu (addIssue e s) = menu s \/
   exists issue,
     found e issue /\
     isItemPresent (menu s) (Text (ae_dialog e)) = false /\
     issueItems (menu (addIssue e s)) =
       <[Key issue := newItem issue]> (issueItems (menu s))).
Proof.
  split.
  { destruct (addIssue_menu e s) as [->|[issue ->]]; [done|apply addItem_selectedKey]. }
  unfold addIssue.
  destruct (dlg_err (ae_dialog e)) eqn:Hdlg; [by left|].
  destruct (decide (Clicked (ae_dialog e) ≠ "OK")) as [|Hbtn]; [by left|].
  destruct (isItemPresent (menu s) (Text (ae_dialog e))) eqn:Habsent; [by left|].
  destruct (cmd_err (ae_login e)) eqn:Hlogin; [by left|].
  destruct (cmd_err (ae_view e)) eqn:Hview; [by left|].
  destruct (ae_decoded e) as [issue [jerr|]] eqn:Hjson; [by left|].
  cbn. unfold addItem.
  destruct (isItemPresent (menu s) (Key issue)) eqn:Hkey; [left; by destruct (menu s)|].
  right. exists issue.
  assert (Hok : Clicked (ae_dialog e) = "OK")
    by (by destruct (decide (Clicked (ae_dialog e) = "OK"))).
  split; [by repeat split|]. by split.
Qed.

End Menu.

(** ** More on the timer *)
Module Sessions.
Import Duration Tracker.
Local Open Scope Z_scope.

(** *** The timer item *)

(** The title the timer item should show. *)
Definition title_of (started : bool) : string :=
  if started then "Stop Timer" else "Start Timer".

Lemma step_keeps_title s ev :
  is_timer_click ev = false -> timerTitle (step s ev) = timerTitle s.
Proof.
  destruct ev as [key|e|e|now e]; intros Hev; try discriminate; cbn.
  - reflexivity.
  - unfold addIssue.
    destruct (dlg_err (ae_dialog e)); [reflexivity|].
    destruct (decide (Clicked (ae_dialog e) ≠ "OK")); [reflexivity|].
    destruct (isItemPresent (menu s) (Text (ae_dialog e))); [reflexivity|].
    destruct (cmd_err (ae_login e)); [reflexivity|].
    destruct (cmd_err (ae_view e)); [reflexivity|].
    destruct (ae_decoded e) as [issue [jerr|]]; reflexivity.
  - unfold refresh, getIssues.
    destruct (cmd_err (fe_login e)); [reflexivity|].
    destruct (cmd_err (fe_list e)); [reflexivity|].
    destruct (fe_decoded e) as [issues [msg|]]; reflexivity.
Qed.

Lemma step_title s ev :
  timerTitle s = title_of (timerStarted s) ->
  timerTitle (step s ev) = title_of (timerStarted (step s ev)).
Proof.
  intros Hs. destruct (is_timer_click ev) eqn:Hev.
  - destruct ev as [key|e|e|now e]; try discriminate. cbn [step].
    destruct (timerStarted s) eqn:Hrun.
    + by rewrite (handleTimer_running _ _ _ Hrun).
    + unfold handleTimer. rewrite Hrun.
      destruct (decide (selectedKey (menu s) = "")); [|reflexivity].
      cbn. by rewrite Hs, Hrun.
  - rewrite (step_keeps_title _ _ Hev).
    by destruct (step_timer s ev Hev) as [-> _].
Qed.

(** X10.  The timer item reads "Stop Timer" exactly while a timer runs, and
    "Start Timer" otherwise, in every state the program reaches. *)
Theorem timer_title_tells_the_state (e : FetchEnv) (evs : list Event) :
  timerTitle (run (onReady e) evs) =
  if timerStarted (run (onReady e) evs) then "Stop Timer" else "Start Timer".
Proof.
  assert (Hinit : timerTitle (onReady e) = title_of (timerStarted (onReady e))).
  { unfold onReady, NewJiraMenu. set (s0 := with_menu _ initial).
    pose proof (step_keeps_title s0 (RefreshClicked e) eq_refl) as Ht.
    destruct (step_timer s0 (RefreshClicked e) eq_refl) as [Hst _].
    cbn [step] in Ht, Hst. rewrite Ht, Hst. reflexivity. }
  revert Hinit. generalize (onReady e).
  induction evs as [|ev evs IH]; intros s Hs; [exact Hs|].
  rewrite run_cons. apply IH, step_title, Hs.
Qed.

(** *** Stopping *)

Lemma handleTimer_idle now e s :
  timerStarted s = false -> selectedKey (menu s) <> "" ->
  handleTimer now e s = with_timer true {| startTime := now |} "Stop Timer" s.
Proof.
  intros Hidle Hsel. unfold handleTimer. rewrite Hidle.
  by destruct (decide (selectedKey (menu s) = "")).
Qed.

(** X11.  A stop always ends the session.  Whatever fails (the dialog, the
    login, the work log, too short a time), the timer is off afterwards
    and the menu is as it was: the elapsed time is not kept for another
    try, and the next click starts a new session at the new time. *)
Theorem stop_always_ends_the_session
  (t1 t2 : Z) (e1 e2 : LogEnv) (s : State) :
  timerStarted s = true ->
  selectedKey (menu s) <> "" ->
  timerStarted (handleTimer t1 e1 s) = false /\
  timerTitle (handleTimer t1 e1 s) = "Start Timer" /\
  menu (handleTimer t1 e1 s) = menu s /\
  timerStarted (handleTimer t2 e2 (handleTimer t1 e1 s)) = true /\
  timer (handleTimer t2 e2 (handleTimer t1 e1 s)) = {| startTime := t2 |} /\
  execs (handleTimer t2 e2 (handleTimer t1 e1 s)) = execs (handleTimer t1 e1 s) /\
  alerts (handleTimer t2 e2 (handleTimer t1 e1 s)) = alerts (handleTimer t1 e1 s).
Proof.
  intros Hrun Hsel.
  assert (Hoff : timerStarted (handleTimer t1 e1 s) = false)
    by (by rewrite (handleTimer_running _ _ _ Hrun)).
  assert (Hmenu : menu (handleTimer t1 e1 s) = menu s) by apply handleTimer_menu.
  split; [exact Hoff|].
  split; [by rewrite (handleTimer_running _ _ _ Hrun)|].
  split; [exact Hmenu|].
  rewrite (handleTimer_idle t2 e2 (handleTimer t1 e1 s) Hoff)
    by (by rewrite Hmenu).
  by repeat split.
Qed.

(** JIRA refuses the work log at 125 s; the click at 130 s starts
    anew. *)
Lemma refused_then_started_anew :
  timer (handleTimer (130 * Second) (all_well "")
           (handleTimer (125 * Second)
              {| le_dialog := pressed "OK" "done"; le_login := ok;
                 le_worklog := failing "issue is closed" "exit status 1" |}
              timing_PROJ_1)) = {| startTime := 130 * Second |}.
Proof.
  destruct (stop_always_ends_the_session (125 * Second) (130 * Second)
              {| le_dialog := pressed "OK" "done"; le_login := ok;
                 le_worklog := failing "issue is closed" "exit status 1" |}
              (all_well "") timing_PROJ_1) as (_ & _ & _ & _ & Htimer & _).
  - reflexivity.
  - discriminate.
  - exact Htimer.
Defined.

(** *** The duration sent *)

Lemma Since_exact start now :
  minDuration <= now - start <= maxDuration -> Since start now = now - start.
Proof.
  intros H. unfold Since.
  destruct (Z.ltb_spec (now - start) minDuration); [lia|].
  destruct (Z.ltb_spec maxDuration (now - start)); [lia|]. reflexivity.
Qed.

Lemma handleTimer_execs now e s :
  timerStarted s = true ->
  execs (handleTimer now e s) =
  execs (snd (addWorkLog (selectedKey (menu s)) (startTime (timer s))
                (stop now (timer s)) e s)).
Proof.
  intros Hrun. rewrite (handleTimer_running _ _ _ Hrun). cbn zeta.
  by destruct (addWorkLog _ _ _ e s) as [[msg|] s'].
Qed.

(** X12.  With a clock that does not run backwards, a work log sent at a stop
    is for a whole number of minutes, at least one, within half a minute
    of the time elapsed; it starts when the timer started and names the
    issue selected at the stop. *)
Theorem worklog_is_for_whole_minutes
  (now : Z) (e : LogEnv) (s : State)
  (m : option string) (S0 : Z) (T k : string) :
  timerStarted s = true ->
  0 <= now - startTime (timer s) < maxDuration - Minute ->
  JiraWorklogAdd m S0 T k ∈ execs (handleTimer now e s) ->
  JiraWorklogAdd m S0 T k ∈ execs s \/
  exists n, T = Itoa n +:+ "m" /\ 1 <= n /\
            n * Minute - 30 * Second <= now - startTime (timer s)
              < n * Minute + 30 * Second /\
            S0 = startTime (timer s) /\ k = selectedKey (menu s).
Proof.
  intros Hrun Hd Hin. rewrite (handleTimer_execs _ _ _ Hrun) in Hin.
  assert (HM : Minute = 60000000000) by reflexivity.
  assert (HS : Second = 1000000000) by reflexivity.
  assert (Hmax : maxDuration = 9223372036854775807) by reflexivity.
  assert (Hmin : minDuration = -9223372036854775808) by reflexivity.
  unfold stop in Hin. rewrite Since_exact in Hin by lia.
  set (d := now - startTime (timer s)) in *.
  destruct (addWorkLog_execs (selectedKey (menu s)) (startTime (timer s)) d e s)
    as (l & Hl & Hcases).
  rewrite Hl in Hin. apply elem_of_app in Hin as [Hin|Hin]; [by left|].
  destruct Hcases as [->|[->|[Hnz ->]]].
  - by apply elem_of_nil in Hin.
  - apply list_elem_of_singleton in Hin. discriminate.
  - apply elem_of_cons in Hin as [Hin|Hin]; [discriminate|].
    apply list_elem_of_singleton in Hin. injection Hin as -> -> -> ->.
    right. rewrite Round_Minute_nonneg in Hnz |- * by lia.
    unfold MinutesInt in Hnz |- *. rewrite Z.quot_mul in Hnz |- * by discriminate.
    set (q := (d + 30 * Second) / Minute) in *.
    pose proof (Z.div_mod (d + 30 * Second) Minute ltac:(discriminate)) as Hdm.
    pose proof (Z.mod_pos_bound (d + 30 * Second) Minute ltac:(reflexivity)) as Hr.
    fold q in Hdm.
    assert (0 <= q) by (apply Z.div_pos; lia).
    exists q. repeat split; lia.
Qed.

(** The session of 125 seconds is sent as two minutes. *)
Lemma worklog_of_125_seconds :
  JiraWorklogAdd (Some "done") 0 "2m" "PROJ-1"
    ∈ execs (handleTimer (125 * Second) (all_well "done") timing_PROJ_1) /\
  exists n, "2m" = Itoa n +:+ "m" /\ 1 <= n /\
            n * Minute - 30 * Second <= 125 * Second < n * Minute + 30 * Second.
Proof.
  assert (Hin : JiraWorklogAdd (Some "done") 0 "2m" "PROJ-1"
                  ∈ execs (handleTimer (125 * Second) (all_well "done") timing_PROJ_1)).
  { vm_compute. do 3 right. left. }
  split; [exact Hin|].
  destruct (worklog_is_for_whole_minutes (125 * Second) (all_well "done")
              timing_PROJ_1 (Some "done") 0 "2m" "PROJ-1" eq_refl) as [Hold|Hnew].
  - vm_compute. split; [discriminate|reflexivity].
  - exact Hin.
  - exfalso. vm_compute in Hold.
    repeat (apply elem_of_cons in Hold as [Hold|Hold]; [discriminate|]).
    by apply elem_of_nil in Hold.
  - destruct Hnew as (n & HT & Hn & Hbound & _). exists n.
    split; [exact HT|]. split; [exact Hn|]. exact Hbound.
Defined.

End Sessions.

(** ** More on the goroutines *)
Module Scheduling.
Import Duration Tracker Goroutines.

(** *** The registry under any schedule *)

Lemma next_keeps_keys x l x' :
  next x l = Some x' ->
  dom (issueItems (menu (st x))) ⊆ dom (issueItems (menu (st x'))).
Proof.
  intros Hnext.
  destruct (next_menu x l x' Hnext) as [->|[[issue ->]|[->|[key ->]]]].
  - done.
  - cbn. rewrite dom_insert_L. set_solver.
  - done.
  - unfold mark. rewrite lookup_fmap.
    destruct (issueItems (menu (st x)) !! key) as [item|] eqn:Hkey; cbn.
    + rewrite dom_insert_L, dom_fmap_L. set_solver.
    + by rewrite dom_fmap_L.
Qed.

(** X14.  However the goroutines are scheduled, and whatever race they run
    into, no key ever leaves the registry. *)
Theorem keys_are_kept_under_any_schedule (ls : list Label) (x x' : Sys) (k : string) :
  sched x ls = Some x' ->
  is_Some (issueItems (menu (st x)) !! k) ->
  is_Some (issueItems (menu (st x')) !! k).
Proof.
  revert x. induction ls as [|l ls IH]; intros x Hs Hk; cbn in Hs.
  - by simplify_eq.
  - destruct (next x l) as [x1|] eqn:Hnext; [|discriminate].
    apply (IH x1 Hs). apply elem_of_dom.
    apply (next_keeps_keys _ _ _ Hnext). by apply elem_of_dom.
Qed.

(** PROJ-1 is still there while a refresh waits and PROJ-2 is being
    checked. *)
Lemma PROJ_1_kept_meanwhile :
  is_Some (issueItems (menu (st (after two_issues PROJ_2_clicked_meanwhile)))
             !! "PROJ-1").
Proof.
  apply (keys_are_kept_under_any_schedule PROJ_2_clicked_meanwhile
           (started two_issues)).
  - vm_compute. reflexivity.
  - vm_compute. eauto.
Defined.

(** *** Entries under any schedule *)

(** A place in [addItem] after the test has found the key missing and
    before the store is done. *)
Definition past_test (pc : AddItemPc) : bool :=
  match pc with
  | AiPresent (PrRUnlock false) | AiLock | AiWrite => true
  | _ => false
  end.

(** Some loop is in [addItem] for an issue of key [k], past its test:
    it will store under [k], whatever the registry has by then. *)
Definition about_to_store (k : string) (x : Sys) : bool :=
  match ad x with
  | AdAdd issue pc => bool_decide (Key issue = k) && past_test pc
  | _ => false
  end
  || match rf x with
     | RfAdd issue pc _ => bool_decide (Key issue = k) && past_test pc
     | _ => false
     end.

(** The registry has [k] with this title and this tooltip. *)
Definition has_text (k title0 tooltip0 : string) (m : JiraMenu) : Prop :=
  exists item, issueItems m !! k = Some item /\
               title item = title0 /\ tooltip item = tooltip0.

Lemma has_text_clear k t tt m : has_text k t tt m -> has_text k t tt (clear m).
Proof. intros H. exact H. Qed.

Lemma has_text_mark key k t tt m : has_text k t tt m -> has_text k t tt (mark key m).
Proof.
  intros (item & Hk & Ht & Htt). unfold mark, has_text. rewrite lookup_fmap.
  destruct (issueItems m !! key) as [item0|] eqn:Hkey; cbn.
  - destruct (decide (key = k)) as [->|Hne].
    + rewrite lookup_insert_eq. eexists. split; [reflexivity|].
      rewrite Hk in Hkey. injection Hkey as <-. by split.
    + rewrite lookup_insert_ne by done. rewrite lookup_fmap, Hk. cbn.
      eexists. split; [reflexivity|]. by split.
  - rewrite lookup_fmap, Hk. cbn. eexists. split; [reflexivity|]. by split.
Qed.

Lemma has_text_store issue k t tt m :
  Key issue <> k -> has_text k t tt m -> has_text k t tt (store issue m).
Proof.
  intros Hne (item & Hk & Ht & Htt). exists item. cbn.
  by rewrite lookup_insert_ne.
Qed.

Lemma has_text_present k t tt m : has_text k t tt m -> isItemPresent m k = true.
Proof. intros (item & Hk & _). apply isItemPresent_true. eauto. Qed.

(** One step inside [isItemPresent] leaves the menu as it is, and its
    result is the lookup. *)
Lemma isItemPresent_step_menu key pc x r x' :
  isItemPresent_step key pc x = Some (r, x') ->
  st x' = st x /\ ad x' = ad x /\ rf x' = rf x /\
  match r with
  | inl (PrRUnlock ok) =>
    pc = PrRead /\ ok = isItemPresent (menu (st x)) key
  | inl _ => True
  | inr ok => pc = PrRUnlock ok
  end.
Proof.
  destruct pc as [| |ok]; cbn; unfold RLock.
  - destruct (writer (mu x)); [discriminate|]. cbn. intros [= <- <-]. by repeat split.
  - intros [= <- <-]. by repeat split.
  - intros [= <- <-]. by repeat split.
Qed.

(** One step inside [addItem issue], for a loop that is not about to
    store under [k]: the entry of [k] keeps its text, and the loop is
    still not about to store under [k]. *)
Lemma addItem_step_keeps issue pc x r x' k t tt :
  addItem_step issue pc x = Some (r, x') ->
  bool_decide (Key issue = k) && past_test pc = false ->
  has_text k t tt (menu (st x)) ->
  has_text k t tt (menu (st x')) /\ ad x' = ad x /\ rf x' = rf x /\
  match r with
  | Some pc' => bool_decide (Key issue = k) && past_test pc' = false
  | None => True
  end.
Proof.
  intros Hstep Hpc Hk. destruct pc as [pc0| | |]; cbn in Hstep.
  - destruct (isItemPresent_step (Key issue) pc0 x) as [[r0 x0]|] eqn:Hp;
      [|discriminate]. cbn in Hstep.
    destruct (isItemPresent_step_menu _ _ _ _ _ Hp) as (Hst & Had & Hrf & Hr0).
    destruct r0 as [pc1|[|]]; simplify_eq; rewrite Hst; (split; [exact Hk|]);
      (split; [exact Had|]); (split; [exact Hrf|]); try done.
    destruct pc1 as [| |ok]; cbn; rewrite ?andb_false_r; try done.
    destruct Hr0 as [-> ->].
    case_bool_decide as Hkey; [|done]. cbn. rewrite Hkey.
    by rewrite (has_text_present _ _ _ _ Hk).
  - unfold Lock in Hstep. destruct (writer (mu x)); [discriminate|].
    destruct (readers (mu x)); [|discriminate]. cbn in Hstep. simplify_eq.
    by repeat split.
  - simplify_eq. cbn in Hpc |- *. rewrite andb_true_r in Hpc.
    apply bool_decide_eq_false in Hpc. split; [by apply has_text_store|].
    by rewrite andb_false_r.
  - simplify_eq. by repeat split.
Qed.

Lemma next_keeps_text x l x' k t tt :
  about_to_store k x = false ->
  has_text k t tt (menu (st x)) ->
  next x l = Some x' ->
  about_to_store k x' = false /\ has_text k t tt (menu (st x')).
Proof.
  unfold about_to_store. intros Hpend Hk Hnext.
  apply orb_false_elim in Hpend as [Had Hrf].
  unfold next in Hnext. destruct (quit x); [discriminate|].
  destruct l as [key| | |e| |e|now|e|].
  - destruct (ck x); simplify_eq. cbn. by rewrite Had, Hrf.
  - unfold click_step in Hnext.
    destruct (ck x) as [|key|key|key|]; simplify_eq; cbn; rewrite ?Had, ?Hrf.
    + split; [done|]. by apply has_text_clear.
    + unfold RLock in Hnext. destruct (writer (mu x)); [discriminate|].
      cbn in Hnext. simplify_eq. cbn. by rewrite Had, Hrf.
    + split; [done|]. by apply has_text_mark.
    + done.
  - destruct (ad x); simplify_eq. cbn. by rewrite Hrf.
  - unfold add_step in Hnext.
    destruct (ad x) as [| |text pc| | |issue pc] eqn:Hadx.
    + discriminate.
    + destruct (dlg_err (ae_dialog e)); [simplify_eq; cbn; by rewrite Hrf|].
      destruct (decide (Clicked (ae_dialog e) ≠ "OK"));
        simplify_eq; cbn; by rewrite Hrf.
    + destruct (isItemPresent_step text pc x) as [[r0 x0]|] eqn:Hp; [|discriminate].
      destruct (isItemPresent_step_menu _ _ _ _ _ Hp) as (Hst & _ & Hrf0 & _).
      cbn in Hnext.
      destruct r0 as [pc1|[|]]; simplify_eq; cbn; rewrite ?Hst, Hrf0, Hrf; done.
    + cbn in Hnext. destruct (cmd_err (ae_login e));
        simplify_eq; cbn; by rewrite Hrf.
    + cbn in Hnext. destruct (cmd_err (ae_view e));
        [simplify_eq; cbn; by rewrite Hrf|].
      destruct (ae_decoded e) as [issue [jerr|]];
        simplify_eq; cbn; rewrite Hrf, ?andb_false_r; done.
    + destruct (addItem_step issue pc x) as [[r0 x0]|] eqn:Hp; [|discriminate].
      destruct (addItem_step_keeps _ _ _ _ _ k t tt Hp Had Hk)
        as (Hk0 & _ & Hrf0 & Hr0).
      cbn in Hnext. destruct r0 as [pc1|]; simplify_eq; cbn;
        rewrite Hrf0, Hrf, ?Hr0; done.
  - destruct (rf x); simplify_eq. cbn. by rewrite Had.
  - unfold refresh_step in Hnext.
    destruct (rf x) as [| |issue pc rest] eqn:Hrfx.
    + discriminate.
    + pose proof (getIssues_menu e (st x)) as Hm.
      destruct (getIssues e (st x)) as [[issues err] s1]. cbn in Hm.
      simplify_eq. cbn. rewrite Had. split.
      * destruct issues; cbn; rewrite ?andb_false_r; done.
      * destruct err; cbn; by rewrite Hm.
    + destruct (addItem_step issue pc x) as [[r0 x0]|] eqn:Hp; [|discriminate].
      destruct (addItem_step_keeps _ _ _ _ _ k t tt Hp Hrf Hk)
        as (Hk0 & Had0 & _ & Hr0).
      cbn in Hnext. destruct r0 as [pc1|]; simplify_eq; cbn;
        rewrite Had0, Had, ?Hr0; [done|].
      split; [|done]. destruct rest; cbn; rewrite ?andb_false_r; done.
  - destruct (tm x); simplify_eq. cbn. by rewrite Had, Hrf.
  - unfold timer_step in Hnext.
    destruct (tm x) as [|now|key started d].
    + discriminate.
    + destruct (timerStarted (st x)); [simplify_eq; cbn; by rewrite Had, Hrf|].
      destruct (decide (selectedKey (menu (st x)) = ""));
        simplify_eq; cbn; by rewrite Had, Hrf.
    + pose proof (addWorkLog_menu key started d e (st x)) as Hm.
      destruct (addWorkLog key started d e (st x)) as [err s1]. cbn in Hm.
      simplify_eq. cbn. rewrite Had, Hrf. split; [done|].
      destruct err; cbn; by rewrite Hm.
  - simplify_eq. cbn. by rewrite Had, Hrf.
Qed.

(** X1.  An entry is replaced only in a race.  Take any state of the
    goroutines in which no loop is past its test in [addItem] for the
    key [k] (so any state in which the loops are at rest, or busy with
    other keys, or still before their test).  Then, however the
    goroutines are scheduled from there, whatever is clicked and
    whatever the outside answers, the entry of [k] stays in the
    registry with its title and its tooltip, and no loop ever gets
    about to store under [k]. *)
Theorem entries_are_kept_unless_raced
  (ls : list Label) (x x' : Sys) (k : string) (item : MenuItem) :
  about_to_store k x = false ->
  issueItems (menu (st x)) !! k = Some item ->
  sched x ls = Some x' ->
  about_to_store k x' = false /\
  exists item', issueItems (menu (st x')) !! k = Some item' /\
                title item' = title item /\ tooltip item' = tooltip item.
Proof.
  intros Hpend Hk.
  assert (Htext : has_text k (title item) (tooltip item) (menu (st x)))
    by (by exists item).
  clear Hk. revert x Hpend Htext.
  induction ls as [|l ls IH]; intros x Hpend Htext Hs; cbn in Hs.
  - simplify_eq. by split.
  - destruct (next x l) as [x1|] eqn:Hnext; [|discriminate].
    destruct (next_keeps_text _ _ _ _ _ _ Hpend Htext Hnext) as [Hpend1 Htext1].
    by apply (IH x1).
Qed.

(** PROJ-1 was listed at start-up; it keeps its text through the race
    of the two adds of PROJ-3. *)
Lemma PROJ_1_keeps_its_text :
  exists item',
    issueItems (menu (st (after two_issues
      (racing_adds ++ [AddGo found_by_view; AddGo found_by_view; AddGo found_by_view]))))
      !! "PROJ-1" = Some item' /\
    title item' = "PROJ-1 - Fix bug" /\ tooltip item' = "Fix bug".
Proof.
  destruct (entries_are_kept_unless_raced
              (racing_adds ++ [AddGo found_by_view; AddGo found_by_view; AddGo found_by_view])
              (started two_issues)
              (after two_issues
                 (racing_adds ++
                  [AddGo found_by_view; AddGo found_by_view; AddGo found_by_view]))
              "PROJ-1"
              {| title := "PROJ-1 - Fix bug"; tooltip := "Fix bug"; checked := false |})
    as [_ Hkept].
  - vm_compute. reflexivity.
  - vm_compute. reflexivity.
  - vm_compute. reflexivity.
  - exact Hkept.
Defined.

(** *** The commands under any schedule *)















(** *** No loop is stuck for ever on the lock *)

(** When a step inside [isItemPresent] and [addItem] is enabled. *)
Lemma isItemPresent_step_enabled key pc x :
  writer (mu x) = false \/ rd_present pc = 1 ->
  is_Some (isItemPresent_step key pc x).
Proof.
  destruct pc; cbn; unfold RLock; intros [H|H]; rewrite ?H; by eauto.
Qed.

Lemma addItem_step_enabled issue pc x :
  match pc with
  | AiPresent pc' => writer (mu x) = false \/ rd_present pc' = 1
  | AiLock => writer (mu x) = false /\ readers (mu x) = 0
  | _ => True
  end ->
  is_Some (addItem_step issue pc x).
Proof.
  destruct pc as [pc'| | |]; cbn.
  - intros H. destruct (isItemPresent_step_enabled (Key issue) pc' x H) as [[r x1] ->].
    cbn. destruct r as [?|[]]; eauto.
  - unfold Lock. intros [-> ->]. cbn. eauto.
  - eauto.
  - eauto.
Qed.

(** A loop between [Lock] and [Unlock], or between [RLock] and
    [RUnlock], can take its next step. *)
Lemma add_holder_steps e x :
  0 < rd_ad (ad x) + wr_ad (ad x) -> is_Some (add_step e x).
Proof.
  unfold add_step. destruct (ad x) as [| |text pc| | |issue pc]; cbn; try lia.
  - intros H.
    destruct (isItemPresent_step_enabled text pc x) as [[r x1] ->];
      [right; destruct pc; cbn in *; lia|].
    cbn. destruct r as [?|[]]; eauto.
  - intros H.
    destruct (addItem_step_enabled issue pc x) as [[r x1] ->].
    + destruct pc as [pc'| | |]; cbn in *; try lia; try done.
      right. destruct pc'; cbn in *; lia.
    + cbn. destruct r; eauto.
Qed.

Lemma refresh_holder_steps e x :
  0 < rd_rf (rf x) + wr_rf (rf x) -> is_Some (refresh_step e x).
Proof.
  unfold refresh_step. destruct (rf x) as [| |issue pc rest]; cbn; try lia.
  intros H.
  destruct (addItem_step_enabled issue pc x) as [[r x1] ->].
  - destruct pc as [pc'| | |]; cbn in *; try lia; try done.
    right. destruct pc'; cbn in *; lia.
  - cbn. destruct r; eauto.
Qed.

Lemma click_holder_steps x : 0 < rd_ck (ck x) -> is_Some (click_step x).
Proof. unfold click_step. destruct (ck x); cbn; try lia; eauto. Qed.

(** With the lock free, every loop that serves a click can take its
    next step. *)
Lemma click_steps_when_free x :
  writer (mu x) = false -> 0 < busy_ck (ck x) -> is_Some (click_step x).
Proof.
  unfold click_step, RLock. intros ->. destruct (ck x); cbn; try lia; eauto.
Qed.

Lemma add_steps_when_free e x :
  writer (mu x) = false -> readers (mu x) = 0 -> 0 < busy_ad (ad x) ->
  is_Some (add_step e x).
Proof.
  intros Hw Hr. unfold add_step.
  destruct (ad x) as [| |text pc| | |issue pc]; cbn; try lia; intros _.
  - destruct (dlg_err (ae_dialog e)); [eauto|].
    destruct (decide (Clicked (ae_dialog e) ≠ "OK")); eauto.
  - destruct (isItemPresent_step_enabled text pc x) as [[r x1] ->]; [by left|].
    cbn. destruct r as [?|[]]; eauto.
  - destruct (cmd_err (ae_login e)); eauto.
  - destruct (cmd_err (ae_view e)); [eauto|].
    destruct (ae_decoded e) as [issue [jerr|]]; eauto.
  - destruct (addItem_step_enabled issue pc x) as [[r x1] ->].
    + destruct pc; cbn; auto.
    + cbn. destruct r; eauto.
Qed.

Lemma refresh_steps_when_free e x :
  writer (mu x) = false -> readers (mu x) = 0 -> 0 < busy_rf (rf x) ->
  is_Some (refresh_step e x).
Proof.
  intros Hw Hr. unfold refresh_step.
  destruct (rf x) as [| |issue pc rest]; cbn; try lia; intros _.
  - destruct (getIssues e (st x)) as [[issues err] s]. eauto.
  - destruct (addItem_step_enabled issue pc x) as [[r x1] ->].
    + destruct pc; cbn; auto.
    + cbn. destruct r; eauto.
Qed.

Lemma timer_steps e x : 0 < busy_tm (tm x) -> is_Some (timer_step e x).
Proof.
  unfold timer_step. destruct (tm x) as [|now|key started d]; cbn; try lia; intros _.
  - destruct (timerStarted (st x)); [eauto|].
    destruct (decide (selectedKey (menu (st x)) = "")); eauto.
  - destruct (addWorkLog key started d e (st x)) as [err s]. eauto.
Qed.

(** X15.  The goroutines never deadlock on the lock of the menu, and the lock
    does not leak.  In every state they reach before Quit: when no click
    is being served the lock is free; and when some click is being
    served, one of the loops can take its next step, whatever the
    outside answers. *)
Theorem never_stuck_on_the_lock
  (e : FetchEnv) (ls : list Label) (x : Sys)
  (ea : AddEnv) (ef : FetchEnv) (el : LogEnv) :
  sched (started e) ls = Some x ->
  quit x = false ->
  (in_flight x = 0 -> mu x = {| readers := 0; writer := false |}) /\
  (0 < in_flight x ->
   is_Some (next x ClickGo) \/ is_Some (next x (AddGo ea)) \/
   is_Some (next x (RefreshGo ef)) \/ is_Some (next x (TimerGo el))).
Proof.
  intros Hs Hq.
  destruct (sched_lock_inv ls _ _ (lock_inv_started e) Hs) as (Hr & Hw & Hwr).
  unfold reading in Hr. unfold writing in Hw. unfold in_flight, next. rewrite Hq.
  split.
  - intros Hrest.
    assert (Hck : rd_ck (ck x) = 0) by (destruct (ck x); cbn in *; lia).
    assert (Had : rd_ad (ad x) = 0 /\ wr_ad (ad x) = 0)
      by (destruct (ad x); cbn in *; lia).
    assert (Hrf : rd_rf (rf x) = 0 /\ wr_rf (rf x) = 0)
      by (destruct (rf x); cbn in *; lia).
    destruct (mu x) as [n w]. cbn in *. f_equal; [lia|].
    destruct w; cbn in *; [lia|reflexivity].
  - intros Hbusy.
    destruct (decide (0 < rd_ck (ck x))) as [Hck|Hck];
      [left; by apply click_holder_steps|].
    destruct (decide (0 < rd_ad (ad x) + wr_ad (ad x))) as [Had|Had];
      [right; left; by apply add_holder_steps|].
    destruct (decide (0 < rd_rf (rf x) + wr_rf (rf x))) as [Hrf|Hrf];
      [right; right; left; by apply refresh_holder_steps|].
    assert (Hfree : writer (mu x) = false /\ readers (mu x) = 0).
    { split; [|lia]. destruct (writer (mu x)); cbn in *; [lia|reflexivity]. }
    destruct Hfree as [Hfw Hfr].
    destruct (decide (0 < busy_ck (ck x))) as [Hbck|Hbck];
      [left; by apply click_steps_when_free|].
    destruct (decide (0 < busy_ad (ad x))) as [Hbad|Hbad];
      [right; left; by apply add_steps_when_free|].
    destruct (decide (0 < busy_rf (rf x))) as [Hbrf|Hbrf];
      [right; right; left; by apply refresh_steps_when_free|].
    right; right; right. apply timer_steps. lia.
Qed.

(** While the refresh stores PROJ-1 under the write lock, some loop can
    go on (the refresh itself). *)
Lemma storing_refresh_can_go_on :
  is_Some (next (after nothing_listed storing_PROJ_1) ClickGo) \/
  is_Some (next (after nothing_listed storing_PROJ_1)
             (AddGo {| ae_dialog := pressed "OK" ""; ae_login := ok;
                       ae_view := ok;
                       ae_decoded := ({| Key := ""; Summary := "" |}, None) |})) \/
  is_Some (next (after nothing_listed storing_PROJ_1) refreshing) \/
  is_Some (next (after nothing_listed storing_PROJ_1) (TimerGo (all_well ""))).
Proof.
  destruct (never_stuck_on_the_lock nothing_listed storing_PROJ_1
              (after nothing_listed storing_PROJ_1)
              {| ae_dialog := pressed "OK" ""; ae_login := ok; ae_view := ok;
                 ae_decoded := ({| Key := ""; Summary := "" |}, None) |}
              two_issues (all_well "")) as [_ Hgo].
  - vm_compute. reflexivity.
  - vm_compute. reflexivity.
  - apply Hgo. vm_compute. lia.
Defined.

End Scheduling.

(** ** Corner cases of the work log *)
Module Corners.
Import Duration Tracker.
Local Open Scope Z_scope.

(** *** The message of the work log *)

Ltac bits b :=
  destruct b as [|b]; [|do 8 (try destruct b as [b|b|])].

(** How [allSpace] takes a list apart: one ASCII space, or a byte from
    128 on followed by one or two more such bytes. *)
Lemma allSpace_cons b rest :
  allSpace (b :: rest) = true ->
  (asciiSpace b = true /\ allSpace rest = true) \/
  ((128 <= b)%N /\
   ((exists c rest', rest = c :: rest' /\ (128 <= c)%N /\ allSpace rest' = true) \/
    (exists c1 c2 rest', rest = c1 :: c2 :: rest' /\ (128 <= c1)%N /\ (128 <= c2)%N /\
                         allSpace rest' = true))).
Proof.
  cbn [allSpace]. destruct (asciiSpace b) eqn:Hb; [by left|]. clear Hb.
  intros H. right.
  bits b; try discriminate H; (split; [lia|]);
    destruct rest as [|c1 rest1]; try discriminate H;
    first
      [ apply andb_prop in H as [Hc H]; left; exists c1, rest1;
        split; [reflexivity|]; split; [|exact H];
        apply orb_prop in Hc as [Hc|Hc]; apply N.eqb_eq in Hc; lia
      | bits c1; try discriminate H;
        destruct rest1 as [|c2 rest2]; try discriminate H;
        right;
        first
          [ apply andb_prop in H as [Hc H]; eexists _, c2, rest2;
            split; [reflexivity|]; split; [lia|]; split; [|exact H];
            repeat (apply orb_prop in Hc as [Hc|Hc]);
            try (apply andb_prop in Hc as [Hc _]; apply N.leb_le in Hc; lia);
            apply N.eqb_eq in Hc; lia
          | bits c2; try discriminate H;
            eexists _, _, _; split; [reflexivity|]; split; [lia|];
            split; [lia|exact H] ] ].
Qed.

Lemma allSpace_ascii n : forall bs,
  (length bs <= n)%nat -> allSpace bs = true ->
  forall b, b ∈ bs -> (b < 128)%N -> asciiSpace b = true.
Proof.
  induction n as [|n IH]; intros bs Hlen Hall b Hin Hb.
  - destruct bs; [by apply elem_of_nil in Hin|cbn in Hlen; lia].
  - destruct bs as [|b0 rest]; [by apply elem_of_nil in Hin|].
    cbn in Hlen.
    destruct (allSpace_cons b0 rest Hall)
      as [[H0 Hrest]|[H0 [(c & rest' & -> & Hc & Hrest)
                          |(c1 & c2 & rest' & -> & Hc1 & Hc2 & Hrest)]]].
    + apply elem_of_cons in Hin as [->|Hin]; [exact H0|].
      apply (IH rest); [lia|done..].
    + repeat (apply elem_of_cons in Hin as [->|Hin]; [lia|]).
      apply (IH rest'); [cbn in Hlen; lia|done..].
    + repeat (apply elem_of_cons in Hin as [->|Hin]; [lia|]).
      apply (IH rest'); [cbn in Hlen; lia|done..].
Qed.

Lemma allSpace_blank bs :
  Forall (fun b => asciiSpace b = true) bs -> allSpace bs = true.
Proof.
  induction 1 as [|b bs Hb _ IH]; [reflexivity|]. cbn [allSpace]. by rewrite Hb.
Qed.

(** X16.  A work log is sent with the text of the dialog as its message when
    the text has a visible ASCII character, wherever it stands, and
    without message when the text is empty or made of ASCII blanks
    (space, tab, line feed, vertical tab, form feed, carriage return). *)
Theorem worklog_message
  (key : string) (started d : Z) (e : LogEnv) (s : State) :
  confirmed (le_dialog e) -> succeeded (le_login e) ->
  MinutesInt (Round d Minute) <> 0 ->
  (Forall (fun b => asciiSpace b = true) (bytes (Text (le_dialog e))) ->
   execs (snd (addWorkLog key started d e s)) =
     execs s ++ [JiraLogin;
                 JiraWorklogAdd None started
                   (Itoa (MinutesInt (Round d Minute)) +:+ "m") key]) /\
  (forall b,
     b ∈ bytes (Text (le_dialog e)) -> (b < 128)%N -> asciiSpace b = false ->
     execs (snd (addWorkLog key started d e s)) =
       execs s ++ [JiraLogin;
                   JiraWorklogAdd (Some (Text (le_dialog e))) started
                     (Itoa (MinutesInt (Round d Minute)) +:+ "m") key]).
Proof.
  intros Hdlg Hlogin Hnz.
  rewrite (addWorkLog_submitted _ _ _ _ _ Hdlg Hlogin Hnz). cbn.
  rewrite <- app_assoc. unfold message, notBlank. split.
  - intros Hblank. by rewrite (allSpace_blank _ Hblank).
  - intros b Hin Hb Hvisible.
    destruct (allSpace (bytes (Text (le_dialog e)))) eqn:Hall; [|reflexivity].
    rewrite (allSpace_ascii _ _ (le_n _) Hall b Hin Hb) in Hvisible. discriminate.
Qed.

(** The message " ok " is sent, the message of two spaces and a tab is
    not. *)
Lemma worklog_message_ok_and_blank :
  execs (snd (addWorkLog "PROJ-1" 0 (125 * Second) (all_well " ok ") initial)) =
    [JiraLogin; JiraWorklogAdd (Some " ok ") 0 "2m" "PROJ-1"] /\
  execs (snd (addWorkLog "PROJ-1" 0 (125 * Second) (all_well "  	") initial)) =
    [JiraLogin; JiraWorklogAdd None 0 "2m" "PROJ-1"].
Proof.
  split.
  - destruct (worklog_message "PROJ-1" 0 (125 * Second) (all_well " ok ") initial)
      as [_ Hvisible].
    + split; reflexivity.
    + reflexivity.
    + vm_compute. discriminate.
    + apply (Hvisible 111%N).
      * vm_compute. right. left.
      * reflexivity.
      * reflexivity.
  - destruct (worklog_message "PROJ-1" 0 (125 * Second) (all_well "  	") initial)
      as [Hblank _].
    + split; reflexivity.
    + reflexivity.
    + vm_compute. discriminate.
    + apply Hblank. vm_compute. repeat constructor.
Defined.

(** *** The empty key *)

(** X17.  The empty key stands for "nothing selected".  An issue that comes
    with an empty key can be in the registry and its item can be
    checked, but it cannot be timed: after a click on it the timer
    answers "No Issue Selected" and does not start. *)
Theorem empty_key_cannot_be_timed (now : Z) (e : LogEnv) (s : State) (item : MenuItem) :
  timerStarted s = false ->
  issueItems (menu s) !! "" = Some item ->
  issueItems (menu (step s (IssueClicked ""))) !! "" = Some (Check item) /\
  handleTimer now e (step s (IssueClicked "")) =
    Alert "No Issue Selected" (step s (IssueClicked "")) /\
  timerStarted (handleTimer now e (step s (IssueClicked ""))) = false.
Proof.
  intros Hidle Hitem.
  assert (Hsel : selectedKey (menu (step s (IssueClicked ""))) = "").
  { cbn. rewrite check_selectedKey. by destruct (isItemPresent (menu s) ""). }
  assert (Hstart : handleTimer now e (step s (IssueClicked "")) =
                   Alert "No Issue Selected" (step s (IssueClicked ""))).
  { unfold handleTimer. cbn [step]. cbn [timerStarted with_menu]. rewrite Hidle.
    fold (step s (IssueClicked "")).
    by destruct (decide (selectedKey (menu (step s (IssueClicked ""))) = "")). }
  split; [|split].
  - cbn. rewrite check_lookup, Hitem. reflexivity.
  - exact Hstart.
  - rewrite Hstart. cbn. exact Hidle.
Qed.

(** JIRA lists an issue without key. *)
Definition keyless_listed : FetchEnv :=
  {| fe_login := ok; fe_list := ok;
     fe_decoded := ([ {| Key := ""; Summary := "No key" |} ], None) |}.

Lemma keyless_issue_is_not_timed :
  alerts (handleTimer 0 (all_well "") (step (onReady keyless_listed) (IssueClicked ""))) =
    ["No Issue Selected"] /\
  checked <$> issueItems (menu (step (onReady keyless_listed) (IssueClicked ""))) !! "" =
    Some true.
Proof.
  destruct (empty_key_cannot_be_timed 0 (all_well "") (onReady keyless_listed)
              {| title := " - No key"; tooltip := "No key"; checked := false |})
    as (Hitem & Hstart & _).
  - reflexivity.
  - reflexivity.
  - split; [by rewrite Hstart|by rewrite Hitem].
Defined.

End Corners.
